(** * htmlsanitizer: a shallow embedding of sanitizer.go

    The development follows the Go package [htmlsanitizer]: the policy
    model, the attribute helpers, the attribute and scheme filters, the
    linkifier, the recursive walker of [SanitizeReader] and the text
    extractor [StripTags].

    Conventions.
    - A Go [string] is a byte string: Rocq's [string] (a list of [ascii]).
      Case folding, white space and control characters are classified on
      single bytes, which is what the Go functions do on ASCII text.
    - A Go [int] ([MaxDepth], the walker's [depth]) is a [Z]; the depth of a
      tree held in memory stays far below the width of [int].
    - [bytes.Buffer] is threaded explicitly: every writer takes the buffer
      and returns the extended buffer.
    - The two external collaborators whose algorithms are not part of the
      package, [html.Parse] and [url.Parse], are section variables. *)

From Stdlib Require Import Ascii String ZArith Lia Bool.
From stdpp Require Import base strings list gmap.

Open Scope Z_scope.

#[local] Arguments String.append !_ _ / : simpl nomatch.

(** ** Byte-string helpers standing for the Go standard library *)

(** The double quote, written by its code so that literals stay simple. *)
Definition DQ : string := String (ascii_of_nat 34) EmptyString.

Definition byte (c : ascii) : N := N_of_ascii c.

Definition isByte (c : ascii) (k : N) : bool := N.eqb (byte c) k.

(** [html.EscapeString] of golang.org/x/net/html: the characters [&],
    ['], [<], [>], the double quote and the carriage return become
    entities. *)
Fixpoint EscapeString (s : string) : string :=
  match s with
  | EmptyString => EmptyString
  | String c r =>
      if isByte c 38 then "&amp;" +:+ EscapeString r
      else if isByte c 39 then "&#39;" +:+ EscapeString r
      else if isByte c 60 then "&lt;" +:+ EscapeString r
      else if isByte c 62 then "&gt;" +:+ EscapeString r
      else if isByte c 34 then "&#34;" +:+ EscapeString r
      else if isByte c 13 then "&#13;" +:+ EscapeString r
      else String c (EscapeString r)
  end.

Definition lowerByte (c : ascii) : ascii :=
  if N.leb 65 (byte c) && N.leb (byte c) 90 then ascii_of_N (byte c + 32) else c.

(** [strings.ToLower]. *)
Fixpoint ToLower (s : string) : string :=
  match s with
  | EmptyString => EmptyString
  | String c r => String (lowerByte c) (ToLower r)
  end.

(** White space of [strings.TrimSpace]: tab, line feed, vertical tab, form
    feed, carriage return and space. *)
Definition isSpace (c : ascii) : bool :=
  (N.leb 9 (byte c) && N.leb (byte c) 13) || isByte c 32.

Fixpoint trimLeft (s : string) : string :=
  match s with
  | EmptyString => EmptyString
  | String c r => if isSpace c then trimLeft r else s
  end.

Fixpoint trimRight (s : string) : string :=
  match s with
  | EmptyString => EmptyString
  | String c r =>
      match trimRight r with
      | EmptyString => if isSpace c then EmptyString else String c EmptyString
      | r' => String c r'
      end
  end.

(** [strings.TrimSpace]. *)
Definition TrimSpace (s : string) : string := trimRight (trimLeft s).

(** The [strings.Map] call of [schemeAllowed]: bytes below 0x20 and 0x7f
    are dropped. *)
Fixpoint stripControl (s : string) : string :=
  match s with
  | EmptyString => EmptyString
  | String c r =>
      if N.ltb (byte c) 32 || isByte c 127 then stripControl r
      else String c (stripControl r)
  end.

(** [strings.HasPrefix] and [strings.Contains]. *)
Fixpoint hasPrefix (pre s : string) : bool :=
  match pre, s with
  | EmptyString, _ => true
  | String a p, String b r => Ascii.eqb a b && hasPrefix p r
  | String _ _, EmptyString => false
  end.

Fixpoint Contains (s sub : string) : bool :=
  hasPrefix sub s ||
  match s with
  | EmptyString => false
  | String _ r => Contains r sub
  end.

(** The slice [s[from:]]. *)
Fixpoint dropBytes (n : nat) (s : string) : string :=
  match n, s with
  | O, _ => s
  | S n', String _ r => dropBytes n' r
  | S _, EmptyString => EmptyString
  end.

(** The slice [s[from:to]]. *)
Definition slice (s : string) (from to : nat) : string :=
  substring from (to - from) s.

(** ** The node tree of golang.org/x/net/html *)

Inductive NodeType : Set :=
  | ErrorNode | TextNode | DocumentNode | ElementNode
  | CommentNode | DoctypeNode | RawNode.

Record Attribute : Set := mkAttr {
  Namespace : string;
  Key : string;
  Val : string
}.

(** A node with its child list ([FirstChild] / [NextSibling] chain). *)
#[local] Unset Elimination Schemes.
Inductive Node : Set :=
  mkNode {
    NType : NodeType;
    Data : string;
    Attr : list Attribute;
    Children : list Node
  }.

#[local] Set Elimination Schemes.

Definition withAttr (n : Node) (attrs : list Attribute) : Node :=
  mkNode (NType n) (Data n) attrs (Children n).

Definition isType (n : Node) (t : NodeType) : bool :=
  match NType n, t with
  | ErrorNode, ErrorNode | TextNode, TextNode | DocumentNode, DocumentNode
  | ElementNode, ElementNode | CommentNode, CommentNode
  | DoctypeNode, DoctypeNode | RawNode, RawNode => true
  | _, _ => false
  end.

(** ** Policy model *)

(** [Transformer]: the node it returns replaces the node it was given;
    [None] is Go's [nil].  The function sees and returns the node with its
    subtree; links to parents and siblings are outside this model. *)
Definition Transformer : Type := Node -> option Node.

Record Policy : Type := mkPolicy {
  AllowedTags : list string;
  AllowedAttributes : gmap string (list string);
  AllowedSchemes : list string;
  StripDisallowed : bool;
  Transformers : list Transformer;
  Linkify : bool;
  MaxDepth : Z
}.

Definition DefaultPolicy : Policy :=
  {| AllowedTags :=
       ["h1"; "h2"; "h3"; "h4"; "h5"; "h6";
        "p"; "br"; "hr";
        "b"; "i"; "em"; "strong"; "u"; "s"; "strike"; "del"; "ins";
        "a"; "img";
        "ul"; "ol"; "li";
        "table"; "thead"; "tbody"; "tfoot"; "tr"; "th"; "td";
        "code"; "pre"; "kbd"; "samp";
        "blockquote"; "cite"; "q";
        "figure"; "figcaption";
        "div"; "span"; "section"; "article"; "header"; "footer";
        "details"; "summary";
        "abbr"; "acronym"; "address";
        "sup"; "sub"];
     AllowedAttributes :=
       list_to_map
         [("a", ["href"; "title"; "target"; "rel"]);
          ("img", ["src"; "alt"; "title"; "width"; "height"; "loading"]);
          ("td", ["colspan"; "rowspan"; "align"; "valign"]);
          ("th", ["colspan"; "rowspan"; "align"; "valign"; "scope"]);
          ("blockquote", ["cite"]);
          ("q", ["cite"]);
          ("abbr", ["title"]);
          ("acronym", ["title"]);
          ("*", ["id"; "class"; "lang"; "dir"])];
     AllowedSchemes := ["http"; "https"; "mailto"];
     StripDisallowed := false;
     Transformers := [];
     Linkify := false;
     MaxDepth := 0 |}.

Definition StrictPolicy : Policy :=
  {| AllowedTags := ["b"; "i"; "em"; "strong"; "br"; "p"; "ul"; "ol"; "li"];
     AllowedAttributes := ∅;
     AllowedSchemes := ["https"];
     StripDisallowed := true;
     Transformers := [];
     Linkify := false;
     MaxDepth := 0 |}.

(** The zero value [Policy{}]. *)
Definition emptyPolicy : Policy :=
  {| AllowedTags := [];
     AllowedAttributes := ∅;
     AllowedSchemes := [];
     StripDisallowed := false;
     Transformers := [];
     Linkify := false;
     MaxDepth := 0 |}.

(** ** Attribute helpers for transformers *)

Fixpoint setAttrList (attrs : list Attribute) (key val : string) : list Attribute :=
  match attrs with
  | [] => [mkAttr "" key val]
  | a :: rest =>
      if String.eqb (Key a) key
      then mkAttr (Namespace a) (Key a) val :: rest
      else a :: setAttrList rest key val
  end.

Definition SetAttr (n : Node) (key val : string) : Node :=
  withAttr n (setAttrList (Attr n) key val).

Fixpoint getAttrList (attrs : list Attribute) (key : string) : string :=
  match attrs with
  | [] => ""
  | a :: rest => if String.eqb (Key a) key then Val a else getAttrList rest key
  end.

Definition GetAttr (n : Node) (key : string) : string :=
  getAttrList (Attr n) key.

Fixpoint removeAttrList (attrs : list Attribute) (key : string) : list Attribute :=
  match attrs with
  | [] => []
  | a :: rest =>
      if negb (String.eqb (Key a) key)
      then a :: removeAttrList rest key
      else removeAttrList rest key
  end.

Definition RemoveAttr (n : Node) (key : string) : Node :=
  withAttr n (removeAttrList (Attr n) key).

(** ** Small helpers of the package *)

Definition sliceToSet (s : list string) : gset string :=
  list_to_set (map ToLower s).

Definition inSet (m : gset string) (k : string) : bool := bool_decide (k ∈ m).

Definition isVoidElement (tag : string) : bool :=
  existsb (String.eqb tag)
    ["area"; "base"; "br"; "col"; "embed"; "hr"; "img"; "input";
     "link"; "meta"; "param"; "source"; "track"; "wbr"].

Fixpoint renderAttrsRaw (attrs : list Attribute) (sb : string) : string :=
  match attrs with
  | [] => sb
  | a :: rest => renderAttrsRaw rest (sb +:+ " " +:+ Key a +:+ "=" +:+ DQ +:+ Val a +:+ DQ)
  end.

Definition renderOpenTag (n : Node) : string :=
  renderAttrsRaw (Attr n) ("<" +:+ Data n) +:+ ">".

Definition isBody (n : Node) : bool :=
  isType n ElementNode && String.eqb (Data n) "body".

Fixpoint findBody (n : Node) : option Node :=
  if isBody n then Some n
  else
    (fix firstIn (cs : list Node) : option Node :=
       match cs with
       | [] => None
       | c :: rest =>
           match findBody c with
           | Some r => Some r
           | None => firstIn rest
           end
       end) (Children n).

(** ** The linkifier

    [urlRegexp] reads: the prefix http, an optional s, the three bytes of
    colon slash slash, one or more bytes that are neither white space, an
    angle bracket nor a double quote, and a last byte of that class that
    is also none of [. , ; : ! ? )] and the closing square bracket.  The
    matcher below is the leftmost, greedy match of that expression on
    bytes: after the prefix it takes the longest run of bytes of the
    first class and gives bytes back until the last one is in the second
    class. *)

(** A byte that is neither white space (tab, line feed, form feed,
    carriage return, space), an angle bracket nor a double quote. *)
Definition urlByte (c : ascii) : bool :=
  negb (isByte c 9 || isByte c 10 || isByte c 12 || isByte c 13 || isByte c 32
        || isByte c 60 || isByte c 62 || isByte c 34).

(** The class of the last byte of a match. *)
Definition urlLastByte (c : ascii) : bool :=
  urlByte c &&
  negb (isByte c 46 || isByte c 44 || isByte c 59 || isByte c 58
        || isByte c 33 || isByte c 63 || isByte c 41 || isByte c 93).

(** Over the run of [urlByte] bytes at the head of [s], the largest index
    [i >= 1] (counted from [pos]) whose byte is a [urlLastByte]. *)
Fixpoint lastUrlEnd (s : string) (pos : nat) (best : option nat) : option nat :=
  match s with
  | EmptyString => best
  | String c r =>
      if urlByte c
      then lastUrlEnd r (S pos)
             (if urlLastByte c && negb (Nat.eqb pos 0) then Some pos else best)
      else best
  end.

(** Length of the match of [urlRegexp] anchored at the head of [s]. *)
Definition matchURL (s : string) : option nat :=
  let after (plen : nat) :=
    match lastUrlEnd (dropBytes plen s) 0 None with
    | Some i => Some (plen + i + 1)%nat
    | None => None
    end in
  if hasPrefix "https://" s then after 8%nat
  else if hasPrefix "http://" s then after 7%nat
  else None.

(** [urlRegexp.FindAllStringIndex(text, -1)]: the successive matches, each
    search resuming where the previous match ended.  [skip] counts the
    bytes of the current match still to be passed over. *)
Fixpoint findAllFrom (s : string) (pos skip : nat) : list (nat * nat) :=
  match s with
  | EmptyString => []
  | String _ r =>
      match skip with
      | S k => findAllFrom r (S pos) k
      | O =>
          match matchURL s with
          | Some len => (pos, (pos + len)%nat) :: findAllFrom r (S pos) (len - 1)
          | None => findAllFrom r (S pos) 0
          end
      end
  end.

Definition FindAllStringIndex (text : string) : list (nat * nat) :=
  findAllFrom text 0 0.

Definition writeAnchor (w : string) (rawURL : string) : string :=
  w +:+ "<a href=" +:+ DQ +:+ EscapeString rawURL
    +:+ DQ +:+ " rel=" +:+ DQ +:+ "noopener noreferrer" +:+ DQ +:+ ">"
    +:+ EscapeString rawURL +:+ "</a>".

Fixpoint writeMatches (w : string) (text : string) (last : nat)
    (matches : list (nat * nat)) : string :=
  match matches with
  | [] => w +:+ EscapeString (dropBytes last text)
  | (m0, m1) :: rest =>
      let w := w +:+ EscapeString (slice text last m0) in
      let w := writeAnchor w (slice text m0 m1) in
      writeMatches w text m1 rest
  end.

Definition writeLinkedText (w : string) (text : string) : string :=
  writeMatches w text 0 (FindAllStringIndex text).

(** ** Output events

    What the walker writes, grouped by the statement that writes it: the
    bytes written for a text node (its escaped text or, under linkify,
    its text with the anchors of the linkifier), the live open or close
    tag of an element, and the escaped rendering of a disallowed
    element's own tags. *)

Inductive Event : Set :=
  | EvText (written : string)
  | EvOpen (tag : string) (attrs : list Attribute) (void : bool)
  | EvClose (tag : string)
  | EvEscaped (literal : string).

Fixpoint writeAttrs (buf : string) (attrs : list Attribute) : string :=
  match attrs with
  | [] => buf
  | a :: rest =>
      writeAttrs (buf +:+ " " +:+ Key a +:+ "=" +:+ DQ +:+ EscapeString (Val a) +:+ DQ) rest
  end.

Definition writeEvent (buf : string) (e : Event) : string :=
  match e with
  | EvText w => buf +:+ w
  | EvOpen tag attrs void =>
      writeAttrs (buf +:+ "<" +:+ tag) attrs +:+ (if void then " />" else ">")
  | EvClose tag => buf +:+ "</" +:+ tag +:+ ">"
  | EvEscaped lit => buf +:+ EscapeString lit
  end.

Definition writeEvents (buf : string) (evs : list Event) : string :=
  fold_left writeEvent evs buf.

Definition isOpen (e : Event) : bool :=
  match e with EvOpen _ _ _ => true | _ => false end.

(** ** The engine, over the external parsers *)

Record URL : Set := mkURL { Scheme : string }.

(** What a call of [Sanitize] comes to: the sanitized string, the error
    of [html.Parse], or, in this model only, a walk that needs more
    nested calls than the fuel allows. *)
Inductive Result : Set :=
  | Ok (out : string)
  | ParseError
  | OutOfFuel.

Definition finish (r : option string) : Result :=
  match r with
  | Some out => Ok out
  | None => OutOfFuel
  end.

Section Engine.

(** [html.Parse] on the bytes of the reader; [None] is a parse error. *)
Variable html_Parse : string -> option Node.

(** [url.Parse]; [None] is a parse error. *)
Variable url_Parse : string -> option URL.

(** The closure [walk] of [htmlDecodeMinimal]: [found] is assigned at
    every anchor that carries an href, whose children are then not
    visited. *)
Fixpoint decodeWalk (n : Node) (found : string) : string :=
  let visit := fold_left (fun f c => decodeWalk c f) (Children n) in
  if isType n ElementNode && String.eqb (Data n) "a" then
    match List.find (fun a => String.eqb (Key a) "href") (Attr n) with
    | Some a => Val a
    | None => visit found
    end
  else visit found.

Definition htmlDecodeMinimal (s : string) : string :=
  let fragment := "<a href=" +:+ DQ +:+ s +:+ DQ +:+ ">" in
  match html_Parse fragment with
  | None => s
  | Some doc =>
      let found := decodeWalk doc "" in
      if negb (String.eqb found "") then found else s
  end.

(** The string handed to [url.Parse] by [schemeAllowed]. *)
Definition normalizeURL (raw : string) : string :=
  let raw := TrimSpace raw in
  let decoded := htmlDecodeMinimal raw in
  let decoded := ToLower (TrimSpace decoded) in
  stripControl decoded.

Definition schemeAllowed (raw : string) (schemes : gset string) : bool :=
  match url_Parse (normalizeURL raw) with
  | None => false
  | Some u =>
      let scheme := ToLower (Scheme u) in
      if String.eqb scheme "" then true else inSet schemes scheme
  end.

Definition inList (attr : string) (list : list string) : bool :=
  existsb (fun a => String.eqb a attr) list.

Definition attrAllowed (attr tag : string) (allowed : gmap string (list string)) : bool :=
  if match allowed !! "*" with Some list => inList attr list | None => false end
  then true
  else match allowed !! tag with Some list => inList attr list | None => false end.

Definition isURLKey (key : string) : bool :=
  String.eqb key "href" || String.eqb key "src" || String.eqb key "action".

Fixpoint filterAttrs (attrs : list Attribute) (tag : string)
    (allowed : gmap string (list string)) (schemes : gset string) : list Attribute :=
  match attrs with
  | [] => []
  | a :: rest =>
      if negb (attrAllowed (Key a) tag allowed) then filterAttrs rest tag allowed schemes
      else if isURLKey (Key a) && negb (schemeAllowed (Val a) schemes)
      then filterAttrs rest tag allowed schemes
      else a :: filterAttrs rest tag allowed schemes
  end.

(** The loop over [p.Transformers]: [n = t(n)], leaving at the first
    [nil]. *)
Fixpoint runTransformers (ts : list Transformer) (n : Node) : option Node :=
  match ts with
  | [] => Some n
  | t :: rest =>
      match t n with
      | None => None
      | Some n' => runTransformers rest n'
      end
  end.

(** A loop [for c := n.FirstChild; c != nil; c = c.NextSibling] whose
    body may fail to return. *)
Fixpoint forChildren {S : Type} (body : Node -> S -> option S)
    (cs : list Node) (st : S) : option S :=
  match cs with
  | [] => Some st
  | c :: rest =>
      match body c st with
      | None => None
      | Some st' => forChildren body rest st'
      end
  end.

Section Walk.

(** The variables captured by the closure [walk] of
    [SanitizeReader]. *)
Variable p : Policy.
Variable allowedTags : gset string.
Variable allowedSchemes : gset string.

Definition tooDeep (depth : Z) : bool :=
  (0 <? MaxDepth p) && (MaxDepth p <? depth).

Definition allowed (tag : string) (depth : Z) : bool :=
  inSet allowedTags tag && negb (tooDeep depth).

Definition writeText (buf : string) (data : string) : string :=
  if Linkify p then writeLinkedText buf data
  else buf +:+ EscapeString data.

(** [walk]: the buffer after the call, or [None] when [fuel] nested
    calls do not suffice (a transformer may return a node with a
    subtree of its own, so the recursion is not on the input tree). *)
Fixpoint walk (fuel : nat) (n : Node) (depth : Z) (buf : string) : option string :=
  match fuel with
  | O => None
  | S fuel =>
      match NType n with
      | TextNode => Some (writeText buf (Data n))
      | ElementNode =>
          let tag := ToLower (Data n) in
          if allowed tag depth then
            let n := withAttr n (filterAttrs (Attr n) tag (AllowedAttributes p) allowedSchemes) in
            match runTransformers (Transformers p) n with
            | None => Some buf
            | Some n =>
                let buf := buf +:+ "<" +:+ tag in
                let buf := writeAttrs buf (Attr n) in
                if isVoidElement tag then Some (buf +:+ " />")
                else
                  let buf := buf +:+ ">" in
                  match forChildren (fun c b => walk fuel c (depth + 1) b) (Children n) buf with
                  | None => None
                  | Some buf => Some (buf +:+ "</" +:+ tag +:+ ">")
                  end
            end
          else if StripDisallowed p then Some buf
          else
            let buf := buf +:+ EscapeString (renderOpenTag n) in
            match forChildren (fun c b => walk fuel c (depth + 1) b) (Children n) buf with
            | None => None
            | Some buf =>
                if negb (isVoidElement tag)
                then Some (buf +:+ EscapeString ("</" +:+ tag +:+ ">"))
                else Some buf
            end
      | DocumentNode => forChildren (fun c b => walk fuel c depth b) (Children n) buf
      | DoctypeNode => Some buf
      | CommentNode => Some buf
      | _ => forChildren (fun c b => walk fuel c depth b) (Children n) buf
      end
  end.

End Walk.

(** [SanitizeReader]; the reader is given by its bytes, a [nil] policy
    by [None].  [fuel] bounds the nesting of [walk]. *)
Definition SanitizeReader (fuel : nat) (r : string) (p : option Policy) : Result :=
  let p := match p with None => DefaultPolicy | Some p => p end in
  match html_Parse r with
  | None => ParseError
  | Some doc =>
      let allowedTags := sliceToSet (AllowedTags p) in
      let allowedSchemes := sliceToSet (AllowedSchemes p) in
      match findBody doc with
      | Some body =>
          finish (forChildren (fun c b => walk p allowedTags allowedSchemes fuel c 1 b)
                    (Children body) "")
      | None => finish (walk p allowedTags allowedSchemes fuel doc 0 "")
      end
  end.

Definition Sanitize (fuel : nat) (htmlStr : string) (p : option Policy) : Result :=
  SanitizeReader fuel htmlStr p.

(** The closure [walk] of [StripTags]. *)
Fixpoint stripWalk (n : Node) (buf : string) : string :=
  let buf := if isType n TextNode then buf +:+ Data n else buf in
  fold_left (fun b c => stripWalk c b) (Children n) buf.

(** [StripTags]; [None] is the error of [html.Parse]. *)
Definition StripTags (htmlStr : string) : option string :=
  match html_Parse htmlStr with
  | None => None
  | Some doc =>
      match findBody doc with
      | Some body => Some (stripWalk body "")
      | None => Some (stripWalk doc "")
      end
  end.

End Engine.

(** ** The walker as a trace of events *)

Section Trace.

Variable html_Parse : string -> option Node.
Variable url_Parse : string -> option URL.
Variable p : Policy.
Variable allowedTags : gset string.
Variable allowedSchemes : gset string.

(** The traces of the children, one after the other. *)
Fixpoint traceChildren (f : Node -> option (list Event)) (cs : list Node)
    : option (list Event) :=
  match cs with
  | [] => Some []
  | c :: rest =>
      match f c with
      | None => None
      | Some e =>
          match traceChildren f rest with
          | None => None
          | Some es => Some (e ++ es)
          end
      end
  end.

(** The events [walk] writes for [n], in order. *)
Fixpoint trace (fuel : nat) (n : Node) (depth : Z) : option (list Event) :=
  match fuel with
  | O => None
  | S fuel =>
      match NType n with
      | TextNode => Some [EvText (writeText p "" (Data n))]
      | ElementNode =>
          let tag := ToLower (Data n) in
          if allowed p allowedTags tag depth then
            let n := withAttr n (filterAttrs html_Parse url_Parse (Attr n) tag
                                   (AllowedAttributes p) allowedSchemes) in
            match runTransformers (Transformers p) n with
            | None => Some []
            | Some n =>
                if isVoidElement tag then Some [EvOpen tag (Attr n) true]
                else
                  match traceChildren (fun c => trace fuel c (depth + 1)) (Children n) with
                  | None => None
                  | Some evs => Some (EvOpen tag (Attr n) false :: evs ++ [EvClose tag])
                  end
            end
          else if StripDisallowed p then Some []
          else
            match traceChildren (fun c => trace fuel c (depth + 1)) (Children n) with
            | None => None
            | Some evs =>
                Some (EvEscaped (renderOpenTag n) :: evs ++
                      (if negb (isVoidElement tag)
                       then [EvEscaped ("</" +:+ tag +:+ ">")] else []))
            end
      | DocumentNode => traceChildren (fun c => trace fuel c depth) (Children n)
      | DoctypeNode => Some []
      | CommentNode => Some []
      | _ => traceChildren (fun c => trace fuel c depth) (Children n)
      end
  end.

End Trace.

(** The events of a whole call of [SanitizeReader]. *)
Definition sanitizeTrace (html_Parse : string -> option Node)
    (url_Parse : string -> option URL) (fuel : nat) (r : string) (p : option Policy)
    : option (list Event) :=
  let p := match p with None => DefaultPolicy | Some p => p end in
  match html_Parse r with
  | None => None
  | Some doc =>
      let allowedTags := sliceToSet (AllowedTags p) in
      let allowedSchemes := sliceToSet (AllowedSchemes p) in
      match findBody doc with
      | Some body =>
          traceChildren
            (fun c => trace html_Parse url_Parse p allowedTags allowedSchemes fuel c 1)
            (Children body)
      | None => trace html_Parse url_Parse p allowedTags allowedSchemes fuel doc 0
      end
  end.

(** ** Trees of the examples and the parsers' answers on them

    [html.Parse] wraps a fragment in a document with an html element that
    holds an empty head and the body.  [recordedParse] and [recordedURL]
    list what [html.Parse] and [url.Parse] return on the inputs of the
    examples; they stand for the two parsers where an example has to run
    end to end. *)

Definition text (s : string) : Node := mkNode TextNode s [] [].

Definition elem (tag : string) (attrs : list Attribute) (cs : list Node) : Node :=
  mkNode ElementNode tag attrs cs.

Definition attr (k v : string) : Attribute := mkAttr "" k v.

Definition document (body : list Node) : Node :=
  mkNode DocumentNode "" []
    [elem "html" [] [elem "head" [] []; elem "body" [] body]].

Definition lookupRecord {A : Type} (table : list (string * A)) (s : string) : option A :=
  match List.find (fun e => String.eqb (fst e) s) table with
  | Some e => Some (snd e)
  | None => None
  end.

Definition anchorOf (url : string) : string :=
  "<a href=" +:+ DQ +:+ url +:+ DQ +:+ " rel=" +:+ DQ +:+ "noopener noreferrer"
    +:+ DQ +:+ ">" +:+ url +:+ "</a>".

Definition hrefFragment (value : string) : string :=
  "<a href=" +:+ DQ +:+ value +:+ DQ +:+ ">".

(** An attribute value that holds a double quote, and an input that
    carries it in a single-quoted attribute. *)
Definition smuggled : string :=
  "javascript:alert(1)//" +:+ DQ +:+ "></a><a href=" +:+ DQ +:+ "https://ok".

Definition smuggledInput : string :=
  "<a href='" +:+ smuggled +:+ "'>click</a>".

Definition parseRecords : list (string * Node) :=
  [ ("<b>Hello</b> <script>alert('xss')</script>",
     document [elem "b" [] [text "Hello"]; text " ";
               elem "script" [] [text "alert('xss')"]]);
    ("<b>x</b>", document [elem "b" [] [text "x"]]);
    ("&lt;b&gt;x&lt;/b&gt;", document [text "<b>x</b>"]);
    ("<a>y</a>", document [elem "a" [] [text "y"]]);
    (hrefFragment "javascript:alert(1)",
     document [elem "a" [attr "href" "javascript:alert(1)"] []]);
    (hrefFragment "https://example.com",
     document [elem "a" [attr "href" "https://example.com"] []]);
    (hrefFragment "/about",
     document [elem "a" [attr "href" "/about"] []]);
    ("<div><b>x</b></div>", document [elem "div" [] [elem "b" [] [text "x"]]]);
    ("<div><div><div><b>deep</b></div></div></div>",
     document [elem "div" [] [elem "div" [] [elem "div" [] [elem "b" [] [text "deep"]]]]]);
    ("Visit https://example.com today",
     document [text "Visit https://example.com today"]);
    ("Visit " +:+ anchorOf "https://example.com" +:+ " today",
     document [text "Visit ";
               elem "a" [attr "href" "https://example.com";
                         attr "rel" "noopener noreferrer"]
                 [text "https://example.com"];
               text " today"]);
    ("<b>Hello</b> &lt;script&gt;alert(&#39;xss&#39;)&lt;/script&gt;",
     document [elem "b" [] [text "Hello"]; text " <script>alert('xss')</script>"]);
    ("<abbr>x</abbr>", document [elem "abbr" [] [text "x"]]);
    ("<abbr title=" +:+ DQ +:+ "!" +:+ DQ +:+ ">x</abbr>",
     document [elem "abbr" [attr "title" "!"] [text "x"]]);
    ("<p>Hello <b>world</b></p>",
     document [elem "p" [] [text "Hello "; elem "b" [] [text "world"]]]);
    ("Hello world", document [text "Hello world"]);
    ("<a href=" +:+ DQ +:+ "/about" +:+ DQ +:+ ">About</a>",
     document [elem "a" [attr "href" "/about"] [text "About"]]);
    (smuggledInput,
     document [elem "a" [attr "href" smuggled] [text "click"]]);
    (hrefFragment smuggled,
     document [elem "a" [attr "href" "javascript:alert(1)//"] [];
               elem "a" [attr "href" "https://ok"] []]) ].

Definition recordedParse (s : string) : option Node := lookupRecord parseRecords s.

Definition urlRecords : list (string * URL) :=
  [ ("javascript:alert(1)", mkURL "javascript");
    ("https://example.com", mkURL "https");
    ("/about", mkURL "");
    ("https://ok", mkURL "https");
    (smuggled, mkURL "javascript") ].

Definition recordedURL (s : string) : option URL := lookupRecord urlRecords s.

(** The engine over the recorded answers. *)
Definition sanitize (fuel : nat) (s : string) (p : option Policy) : Result :=
  Sanitize recordedParse recordedURL fuel s p.

Definition stripTags (s : string) : option string := StripTags recordedParse s.

(** The nodes handed to the successive transformers by the loop of
    [runTransformers]: one entry per call made. *)
Fixpoint transformerCalls (ts : list Transformer) (n : Node) : list Node :=
  match ts with
  | [] => []
  | t :: rest =>
      n :: match t n with
           | None => []
           | Some n' => transformerCalls rest n'
           end
  end.

(** Transformers and policies of the examples. *)

Definition addTarget : Transformer :=
  fun n =>
    if isType n ElementNode && String.eqb (Data n) "a"
    then Some (SetAttr n "target" "_blank")
    else Some n.

Definition vetoAll : Transformer := fun _ => None.

Definition extendTitle : Transformer :=
  fun n => Some (SetAttr n "title" (GetAttr n "title" +:+ "!")).

Definition setScriptHref : Transformer :=
  fun n => Some (SetAttr n "href" "javascript:alert(1)").

Definition withTransformers (p : Policy) (ts : list Transformer) : Policy :=
  mkPolicy (AllowedTags p) (AllowedAttributes p) (AllowedSchemes p)
    (StripDisallowed p) ts (Linkify p) (MaxDepth p).

Definition withLinkify (p : Policy) (b : bool) : Policy :=
  mkPolicy (AllowedTags p) (AllowedAttributes p) (AllowedSchemes p)
    (StripDisallowed p) (Transformers p) b (MaxDepth p).

Definition withMaxDepth (p : Policy) (d : Z) : Policy :=
  mkPolicy (AllowedTags p) (AllowedAttributes p) (AllowedSchemes p)
    (StripDisallowed p) (Transformers p) (Linkify p) d.

Definition withStrip (p : Policy) (b : bool) : Policy :=
  mkPolicy (AllowedTags p) (AllowedAttributes p) (AllowedSchemes p)
    b (Transformers p) (Linkify p) (MaxDepth p).

(** The walker of a policy over the recorded parsers, with the lookup
    sets [SanitizeReader] builds. *)
Definition walkWith (p : Policy) : nat -> Node -> Z -> string -> option string :=
  walk recordedParse recordedURL p
    (sliceToSet (AllowedTags p)) (sliceToSet (AllowedSchemes p)).

(** ** Notions used to state the properties *)

(** The data of the text nodes of a tree, in document order. *)
Fixpoint textsOf (n : Node) : list string :=
  (if isType n TextNode then [Data n] else []) ++ flat_map textsOf (Children n).

(** Trees as the parser builds them: text, comment and doctype nodes are
    leaves, and so are void elements. *)
Fixpoint parserShaped (n : Node) : bool :=
  match NType n with
  | TextNode | CommentNode | DoctypeNode =>
      match Children n with [] => true | _ => false end
  | ElementNode =>
      if isVoidElement (ToLower (Data n))
      then match Children n with [] => true | _ => false end
      else forallb parserShaped (Children n)
  | _ => forallb parserShaped (Children n)
  end.

(** Number of nested calls [walk] needs on a tree it does not rewrite. *)
Fixpoint height (n : Node) : nat :=
  S (fold_right (fun c h => Nat.max (height c) h) O (Children n)).

(** [sub] occurs in [s]. *)
Definition occursIn (sub s : string) : Prop :=
  exists pre post, s = pre +:+ sub +:+ post.

(** The policies of the package's tests: a single allowed tag. *)
Definition onlyTag (tag : string) (strip : bool) : Policy :=
  mkPolicy [tag] ∅ ["https"] strip [] false 0.

Definition deepTree : Node :=
  elem "div" [] [elem "div" [] [elem "div" [] [elem "b" [] [text "deep"]]]].

(** The text content of a tree: the data of its text nodes, in document
    order. *)
Fixpoint textContent (n : Node) : string :=
  (if isType n TextNode then Data n else "")
    +:+ fold_right (fun c acc => textContent c +:+ acc) "" (Children n).

(** The node [StripTags] and [SanitizeReader] start from. *)
Definition bodyOrRoot (doc : Node) : Node :=
  match findBody doc with
  | Some body => body
  | None => doc
  end.

(** The document the parser builds for a text without markup. *)
Definition plainDocument (s : string) : Node :=
  document (if String.eqb s "" then [] else [text s]).

(** ** The forest an output spells

    Used to state idempotence: what a parser that inverts the serializer
    reads back from the output of a walk that runs no transformer and
    does not linkify.  An allowed element comes back with its lower-cased
    tag and filtered attributes, the escaped tags of a disallowed element
    come back as text, a stripped element, a comment and a doctype do not
    come back. *)

Section Spelled.

Variable html_Parse : string -> option Node.
Variable url_Parse : string -> option URL.
Variable p : Policy.
Variable allowedTags : gset string.
Variable allowedSchemes : gset string.

Fixpoint spelled (n : Node) (depth : Z) : list Node :=
  match NType n with
  | TextNode => [text (Data n)]
  | ElementNode =>
      let tag := ToLower (Data n) in
      if allowed p allowedTags tag depth then
        [elem tag
           (filterAttrs html_Parse url_Parse (Attr n) tag (AllowedAttributes p) allowedSchemes)
           (if isVoidElement tag then []
            else flat_map (fun c => spelled c (depth + 1)) (Children n))]
      else if StripDisallowed p then []
      else
        text (renderOpenTag n)
          :: flat_map (fun c => spelled c (depth + 1)) (Children n)
          ++ (if negb (isVoidElement tag) then [text ("</" +:+ tag +:+ ">")] else [])
  | DocumentNode => flat_map (fun c => spelled c depth) (Children n)
  | DoctypeNode => []
  | CommentNode => []
  | _ => flat_map (fun c => spelled c depth) (Children n)
  end.

End Spelled.

(** Adjacent text nodes read as one text node. *)
Fixpoint mergeAdjacent (ns : list Node) : list Node :=
  match ns with
  | [] => []
  | n :: rest =>
      match mergeAdjacent rest with
      | m :: r =>
          if isType n TextNode && isType m TextNode
          then text (Data n +:+ Data m) :: r
          else n :: m :: r
      | [] => [n]
      end
  end.

Fixpoint coalesceNode (n : Node) : Node :=
  mkNode (NType n) (Data n) (Attr n) (mergeAdjacent (map coalesceNode (Children n))).

Definition coalesce (ns : list Node) : list Node :=
  mergeAdjacent (map coalesceNode ns).

(** A tree without its comment and doctype nodes. *)
Definition isDropped (n : Node) : bool :=
  isType n CommentNode || isType n DoctypeNode.

Fixpoint withoutComments (n : Node) : Node :=
  mkNode (NType n) (Data n) (Attr n)
    (List.filter (fun c => negb (isDropped c)) (map withoutComments (Children n))).

(** The nodes of a tree in document order (a node before its children,
    the children from first to last). *)
Fixpoint nodesOf (n : Node) : list Node :=
  n :: flat_map nodesOf (Children n).

(** The trace of a policy over the recorded parsers, with the lookup
    sets [SanitizeReader] builds. *)
Definition traceOf (p : Policy) : nat -> Node -> Z -> option (list Event) :=
  trace recordedParse recordedURL p
    (sliceToSet (AllowedTags p)) (sliceToSet (AllowedSchemes p)).

(** ** Nesting of the live tags of a trace *)

(** The live tags of [evs] are properly nested over the open tags in
    [stack]: a close tag closes the innermost open tag, self-closing tags
    open nothing, and no tag stays open. *)
Fixpoint wellNested (stack : list string) (evs : list Event) : bool :=
  match evs with
  | [] => match stack with [] => true | _ => false end
  | EvOpen tag _ void :: rest =>
      if void then wellNested stack rest else wellNested (tag :: stack) rest
  | EvClose tag :: rest =>
      match stack with
      | top :: below => String.eqb top tag && wellNested below rest
      | [] => false
      end
  | _ :: rest => wellNested stack rest
  end.

(** The largest number of live tags open at once along [evs], starting
    with [cur] open tags. *)
Fixpoint peak (cur : nat) (evs : list Event) : nat :=
  match evs with
  | [] => cur
  | EvOpen _ _ false :: rest => Nat.max cur (peak (S cur) rest)
  | EvClose _ :: rest => Nat.max cur (peak (Nat.pred cur) rest)
  | _ :: rest => peak cur rest
  end.

(** No byte of [s] is an angle bracket or a quote. *)
Fixpoint noMarkup (s : string) : bool :=
  match s with
  | EmptyString => true
  | String c r =>
      negb (isByte c 60 || isByte c 62 || isByte c 34 || isByte c 39) && noMarkup r
  end.

(** No byte of [s] is a control byte (below 0x20, or 0x7f) or an
    upper-case ASCII letter. *)
Fixpoint normalized (s : string) : bool :=
  match s with
  | EmptyString => true
  | String c r =>
      negb (N.ltb (byte c) 32 || isByte c 127)
      && negb (N.leb 65 (byte c) && N.leb (byte c) 90)
      && normalized r
  end.

(** The href values met by the closure of [htmlDecodeMinimal], in document
    order: an anchor that carries an href gives the value of its first
    href and hides its subtree. *)
Fixpoint hrefsOf (n : Node) : list string :=
  if isType n ElementNode && String.eqb (Data n) "a" then
    match List.find (fun a => String.eqb (Key a) "href") (Attr n) with
    | Some a => [Val a]
    | None => flat_map hrefsOf (Children n)
    end
  else flat_map hrefsOf (Children n).

(** The matches are in increasing order, not empty, and none starts
    before [last]. *)
Fixpoint ordered (last : nat) (ms : list (nat * nat)) : bool :=
  match ms with
  | [] => true
  | (a, b) :: rest => (last <=? a)%nat && (a <? b)%nat && ordered b rest
  end.

(** What a walk in strip mode may write: text, and the open and close
    tags of allowed elements. *)
Definition liveOnly (allowedTags : gset string) (e : Event) : Prop :=
  match e with
  | EvText _ => True
  | EvOpen tag _ void => inSet allowedTags tag = true /\ void = isVoidElement tag
  | EvClose tag => inSet allowedTags tag = true /\ isVoidElement tag = false
  | EvEscaped _ => False
  end.

(** The attribute names [DefaultPolicy] lists, for any tag. *)
Definition defaultAttributeNames : list string :=
  ["href"; "title"; "target"; "rel";
   "src"; "alt"; "width"; "height"; "loading";
   "colspan"; "rowspan"; "align"; "valign"; "scope";
   "cite"; "id"; "class"; "lang"; "dir"].

(** The events of a call under [StrictPolicy]: escaped text and the
    preset's nine tags, bare. *)
Definition strictEvent (e : Event) : Prop :=
  match e with
  | EvText w => noMarkup w = true
  | EvOpen tag attrs _ => In tag (AllowedTags StrictPolicy) /\ attrs = []
  | EvClose tag => In tag (AllowedTags StrictPolicy)
  | EvEscaped _ => False
  end.

(** The events of a call under [DefaultPolicy]: the live tags are the
    preset's, with attributes of the names the preset lists. *)
Definition defaultEvent (e : Event) : Prop :=
  match e with
  | EvText w => noMarkup w = true
  | EvOpen tag attrs _ =>
      In tag (AllowedTags DefaultPolicy)
      /\ forall a, In a attrs -> In (Key a) defaultAttributeNames
  | EvClose tag => In tag (AllowedTags DefaultPolicy)
  | EvEscaped lit => noMarkup (EscapeString lit) = true
  end.

(** ** Basic facts on byte strings and writers *)

(** Induction over nodes with the hypothesis available for every child. *)
Lemma Node_forall_ind (P : Node -> Prop) :
  (forall t d a cs, Forall P cs -> P (mkNode t d a cs)) ->
  forall n, P n.
Proof.
  intros step.
  fix self 1.
  intros [t d a cs]. apply step.
  induction cs as [|c cs IH]; constructor; [apply self | exact IH].
Qed.

Lemma sapp_assoc (a b c : string) : (a +:+ b) +:+ c = a +:+ (b +:+ c).
Proof. induction a as [|x a IH]; simpl; [reflexivity | now rewrite IH]. Qed.

Lemma sapp_nil_r (a : string) : a +:+ "" = a.
Proof. induction a as [|x a IH]; simpl; [reflexivity | now rewrite IH]. Qed.

Lemma writeAttrs_app (buf : string) (attrs : list Attribute) :
  writeAttrs buf attrs = buf +:+ writeAttrs "" attrs.
Proof.
  revert buf. induction attrs as [|a rest IH]; intros buf; simpl.
  - now rewrite sapp_nil_r.
  - rewrite (IH (buf +:+ _)).
    match goal with |- _ = _ +:+ writeAttrs ?x rest => rewrite (IH x) end.
    now rewrite <- !sapp_assoc.
Qed.

Lemma writeMatches_app (w text : string) (last : nat) (ms : list (nat * nat)) :
  writeMatches w text last ms = w +:+ writeMatches "" text last ms.
Proof.
  revert w last. induction ms as [|[m0 m1] rest IH]; intros w last; simpl.
  - reflexivity.
  - rewrite (IH (writeAnchor (w +:+ _) _)).
    match goal with |- _ = _ +:+ writeMatches ?x _ _ _ => rewrite (IH x) end.
    unfold writeAnchor. simpl. now rewrite <- !sapp_assoc.
Qed.

Lemma writeText_app (p : Policy) (buf data : string) :
  writeText p buf data = buf +:+ writeText p "" data.
Proof.
  unfold writeText, writeLinkedText. destruct (Linkify p).
  - apply writeMatches_app.
  - reflexivity.
Qed.

Lemma writeEvent_app (buf : string) (e : Event) :
  writeEvent buf e = buf +:+ writeEvent "" e.
Proof.
  destruct e as [w|tag attrs void|tag|lit]; simpl; try reflexivity.
  - rewrite (writeAttrs_app (buf +:+ _)).
    match goal with |- _ = _ +:+ writeAttrs ?x _ +:+ _ => rewrite (writeAttrs_app x) end.
    now rewrite <- !sapp_assoc.
Qed.

Lemma writeEvents_cons (buf : string) (e : Event) (evs : list Event) :
  writeEvents buf (e :: evs) = writeEvents (writeEvent buf e) evs.
Proof. reflexivity. Qed.

Lemma writeEvents_snoc (buf : string) (evs : list Event) (e : Event) :
  writeEvents buf (evs ++ [e]) = writeEvent (writeEvents buf evs) e.
Proof. unfold writeEvents. now rewrite fold_left_app. Qed.

Lemma writeEvents_concat (buf : string) (e1 e2 : list Event) :
  writeEvents buf (e1 ++ e2) = writeEvents (writeEvents buf e1) e2.
Proof. unfold writeEvents. now rewrite fold_left_app. Qed.

Lemma writeEvents_app (buf : string) (evs : list Event) :
  writeEvents buf evs = buf +:+ writeEvents "" evs.
Proof.
  revert buf. induction evs as [|e evs IH]; intros buf.
  - simpl. now rewrite sapp_nil_r.
  - rewrite !writeEvents_cons. rewrite IH. rewrite (IH (writeEvent "" e)).
    rewrite (writeEvent_app buf). now rewrite sapp_assoc.
Qed.

(** ** The linkifier on the scenario of the package's documentation *)

Example FindAllStringIndex_scenario :
  FindAllStringIndex "Visit https://example.com today" = [(6%nat, 25%nat)]
  /\ FindAllStringIndex "see http://a.b/c?d=1). and http://x" = [(4%nat, 20%nat)].
Proof. split; reflexivity. Qed.

Example writeLinkedText_scenario :
  writeLinkedText "" "Visit https://example.com today"
  = "Visit " +:+ anchorOf "https://example.com" +:+ " today".
Proof. reflexivity. Qed.

(** ** The trace is what the walker writes *)

Section TraceSound.

Variable html_Parse : string -> option Node.
Variable url_Parse : string -> option URL.
Variable p : Policy.
Variable allowedTags : gset string.
Variable allowedSchemes : gset string.

#[local] Abbreviation walk' := (walk html_Parse url_Parse p allowedTags allowedSchemes).
#[local] Abbreviation trace' := (trace html_Parse url_Parse p allowedTags allowedSchemes).

Lemma forChildren_trace (body : Node -> string -> option string)
    (f : Node -> option (list Event)) (cs : list Node) :
  (forall c b, body c b = option_map (writeEvents b) (f c)) ->
  forall buf,
    forChildren body cs buf = option_map (writeEvents buf) (traceChildren f cs).
Proof.
  intros Hbody. induction cs as [|c rest IH]; intros buf; simpl.
  - reflexivity.
  - rewrite Hbody. destruct (f c) as [e|]; simpl; [|reflexivity].
    rewrite IH. destruct (traceChildren f rest) as [es|]; simpl; [|reflexivity].
    now rewrite writeEvents_concat.
Qed.

Lemma walk_trace (fuel : nat) :
  forall n depth buf,
    walk' fuel n depth buf = option_map (writeEvents buf) (trace' fuel n depth).
Proof.
  induction fuel as [|fuel IH]; intros n depth buf; simpl; [reflexivity|].
  destruct (NType n);
    try (apply forChildren_trace; intros c b; apply IH);
    try reflexivity.
  - simpl. unfold writeEvents. simpl. now rewrite writeText_app.
  - destruct (allowed p allowedTags (ToLower (Data n)) depth).
    + destruct (runTransformers _ _) as [n'|]; [|reflexivity].
      destruct (isVoidElement _); [reflexivity|].
      rewrite (forChildren_trace _ (fun c => trace html_Parse url_Parse p allowedTags
                                                allowedSchemes fuel c (depth + 1)))
        by (intros c b; apply IH).
      destruct (traceChildren _ _) as [evs|]; cbn [option_map]; [|reflexivity].
      rewrite writeEvents_cons, writeEvents_snoc. reflexivity.
    + destruct (StripDisallowed p); [reflexivity|].
      rewrite (forChildren_trace _ (fun c => trace html_Parse url_Parse p allowedTags
                                                allowedSchemes fuel c (depth + 1)))
        by (intros c b; apply IH).
      destruct (traceChildren _ _) as [evs|]; cbn [option_map]; [|reflexivity].
      rewrite writeEvents_cons.
      destruct (isVoidElement _); cbn [negb].
      * now rewrite app_nil_r.
      * now rewrite writeEvents_snoc.
Qed.

End TraceSound.

(** ** The attribute helpers *)

Lemma getAttrList_set (attrs : list Attribute) (k v : string) :
  getAttrList (setAttrList attrs k v) k = v.
Proof.
  induction attrs as [|a rest IH]; simpl.
  - now rewrite String.eqb_refl.
  - destruct (String.eqb (Key a) k) eqn:E; simpl.
    + now rewrite E.
    + now rewrite E.
Qed.

Lemma setAttrList_keys (attrs : list Attribute) (k v : string) :
  map Key (setAttrList attrs k v) =
  if existsb (fun a => String.eqb (Key a) k) attrs
  then map Key attrs else map Key attrs ++ [k].
Proof.
  induction attrs as [|a rest IH]; simpl; [reflexivity|].
  destruct (String.eqb (Key a) k) eqn:E; simpl; [reflexivity|].
  rewrite IH. now destruct (existsb _ rest).
Qed.

Lemma getAttrList_set_other (attrs : list Attribute) (k v k' : string) :
  String.eqb k k' = false ->
  getAttrList (setAttrList attrs k v) k' = getAttrList attrs k'.
Proof.
  intros Hne. induction attrs as [|a rest IH]; simpl.
  - now rewrite Hne.
  - destruct (String.eqb (Key a) k) eqn:E; simpl.
    + apply String.eqb_eq in E. rewrite E, Hne. reflexivity.
    + now rewrite IH.
Qed.

Lemma getAttrList_remove (attrs : list Attribute) (k : string) :
  getAttrList (removeAttrList attrs k) k = "".
Proof.
  induction attrs as [|a rest IH]; simpl; [reflexivity|].
  destruct (String.eqb (Key a) k) eqn:E; simpl; [exact IH|].
  now rewrite E.
Qed.

Lemma removeAttrList_filter (attrs : list Attribute) (k : string) :
  removeAttrList attrs k = List.filter (fun a => negb (String.eqb (Key a) k)) attrs.
Proof.
  induction attrs as [|a rest IH]; simpl; [reflexivity|].
  rewrite IH. reflexivity.
Qed.

Lemma removeAttrList_sublist (attrs : list Attribute) (k : string) :
  removeAttrList attrs k `sublist_of` attrs.
Proof.
  induction attrs as [|a rest IH]; simpl; [constructor|].
  destruct (negb _); [now apply sublist_skip | now apply sublist_cons].
Qed.

Lemma getAttrList_absent (attrs : list Attribute) (k : string) :
  existsb (fun a => String.eqb (Key a) k) attrs = false ->
  getAttrList attrs k = "".
Proof.
  induction attrs as [|a rest IH]; simpl; [reflexivity|].
  destruct (String.eqb (Key a) k); simpl; [discriminate | exact IH].
Qed.

(** C10. After [SetAttr n k v], [GetAttr n k] is [v]; an existing key is
    updated in place (the keys stay as they were, [k] is appended only
    when it was absent) and the values read under other keys are
    unchanged.  After [RemoveAttr n k], [GetAttr n k] is the empty string
    and the remaining attributes are the attributes with another key, in
    their order.  [GetAttr] on an absent key is the empty string. *)
Theorem attr_helpers_spec (n : Node) (k v : string) :
  GetAttr (SetAttr n k v) k = v
  /\ map Key (Attr (SetAttr n k v)) =
       (if existsb (fun a => String.eqb (Key a) k) (Attr n)
        then map Key (Attr n) else map Key (Attr n) ++ [k])
  /\ (forall k', String.eqb k k' = false ->
        GetAttr (SetAttr n k v) k' = GetAttr n k')
  /\ GetAttr (RemoveAttr n k) k = ""
  /\ Attr (RemoveAttr n k) =
       List.filter (fun a => negb (String.eqb (Key a) k)) (Attr n)
  /\ Attr (RemoveAttr n k) `sublist_of` Attr n
  /\ (existsb (fun a => String.eqb (Key a) k) (Attr n) = false ->
        GetAttr n k = "").
Proof.
  unfold GetAttr, SetAttr, RemoveAttr, withAttr; simpl.
  repeat split.
  - apply getAttrList_set.
  - apply setAttrList_keys.
  - intros k' Hne. now apply getAttrList_set_other.
  - apply getAttrList_remove.
  - apply removeAttrList_filter.
  - apply removeAttrList_sublist.
  - apply getAttrList_absent.
Qed.

Lemma attr_helpers_spec_witness :
  let n := elem "a" [attr "href" "https://example.com"; attr "title" "t"] [] in
  GetAttr (SetAttr n "href" "https://other.com") "href" = "https://other.com"
  /\ GetAttr (SetAttr n "href" "https://other.com") "title" = GetAttr n "title"
  /\ GetAttr n "rel" = "".
Proof.
  intros n.
  destruct (attr_helpers_spec n "href" "https://other.com") as (H1 & _ & H3 & _).
  destruct (attr_helpers_spec n "rel" "") as (_ & _ & _ & _ & _ & _ & H7).
  split; [exact H1|]. split; [apply H3; reflexivity|]. apply H7; reflexivity.
Defined.

(** ** Occurrences and traces *)

Lemma hasPrefix_spec (pre s : string) :
  hasPrefix pre s = true <-> exists post, s = pre +:+ post.
Proof.
  revert s. induction pre as [|a pre IH]; intros s; simpl.
  - split; [intros _; now exists s | reflexivity].
  - destruct s as [|b r].
    + split; [discriminate | intros [post H]; discriminate].
    + rewrite andb_true_iff, Ascii.eqb_eq, IH. split.
      * intros [-> [post ->]]. now exists post.
      * intros [post H]. injection H as -> ->. split; [reflexivity | now exists post].
Qed.

Lemma Contains_spec (s sub : string) :
  Contains s sub = true <-> occursIn sub s.
Proof.
  unfold occursIn. induction s as [|c r IH]; simpl.
  - rewrite orb_false_r, hasPrefix_spec. split.
    + intros [post H]. now exists "", post.
    + intros (pre & post & H). destruct pre as [|x pre]; [now exists post | discriminate].
  - rewrite orb_true_iff, hasPrefix_spec, IH. split.
    + intros [[post H] | (pre & post & H)].
      * now exists "", post.
      * exists (String c pre), post. simpl. now rewrite H.
    + intros (pre & post & H). destruct pre as [|x pre].
      * left. now exists post.
      * right. simpl in H. injection H as _ H. now exists pre, post.
Qed.

Lemma writeEvents_occurs (buf : string) (evs : list Event) (e : Event) :
  In e evs -> occursIn (writeEvent "" e) (writeEvents buf evs).
Proof.
  intros Hin. apply in_split in Hin as (l1 & l2 & ->).
  rewrite writeEvents_concat, writeEvents_cons.
  rewrite (writeEvents_app (writeEvent _ _)), (writeEvent_app (writeEvents _ _)).
  exists (writeEvents buf l1), (writeEvents "" l2). now rewrite sapp_assoc.
Qed.

Lemma traceChildren_In (f : Node -> option (list Event)) (cs : list Node)
    (evs : list Event) (c : Node) :
  traceChildren f cs = Some evs -> In c cs ->
  exists e, f c = Some e /\ (forall x, In x e -> In x evs).
Proof.
  revert evs. induction cs as [|c0 rest IH]; intros evs Htr Hin; [destruct Hin|].
  simpl in Htr. destruct (f c0) as [e0|] eqn:E0; [|discriminate].
  destruct (traceChildren f rest) as [es|] eqn:Er; [|discriminate].
  injection Htr as <-. destruct Hin as [<- | Hin].
  - exists e0. split; [exact E0|]. intros x Hx. apply in_or_app. now left.
  - destruct (IH es eq_refl Hin) as (e & He & Hsub). exists e. split; [exact He|].
    intros x Hx. apply in_or_app. right. now apply Hsub.
Qed.

Lemma traceChildren_Forall (P : Event -> Prop) (f : Node -> option (list Event))
    (cs : list Node) (evs : list Event) :
  (forall c e, In c cs -> f c = Some e -> Forall P e) ->
  traceChildren f cs = Some evs -> Forall P evs.
Proof.
  revert evs. induction cs as [|c0 rest IH]; intros evs Hall Htr; simpl in Htr.
  - injection Htr as <-. constructor.
  - destruct (f c0) as [e0|] eqn:E0; [|discriminate].
    destruct (traceChildren f rest) as [es|] eqn:Er; [|discriminate].
    injection Htr as <-. apply Forall_app. split.
    + apply (Hall c0); [now left | exact E0].
    + apply IH; [|reflexivity]. intros c e Hin. apply Hall. now right.
Qed.

Lemma traceChildren_total (f : Node -> option (list Event)) (cs : list Node) :
  (forall c, In c cs -> exists e, f c = Some e) ->
  exists evs, traceChildren f cs = Some evs.
Proof.
  induction cs as [|c0 rest IH]; intros Hall; simpl; [now exists []|].
  destruct (Hall c0 (or_introl eq_refl)) as [e0 ->].
  destruct IH as [es ->]; [intros c Hin; apply Hall; now right|].
  now exists (e0 ++ es).
Qed.

Lemma height_child (n c : Node) : In c (Children n) -> (height c < height n)%nat.
Proof.
  destruct n as [t d a cs]. simpl. induction cs as [|c0 rest IH]; intros Hin; [destruct Hin|].
  simpl. destruct Hin as [<- | Hin]; [lia | specialize (IH Hin); lia].
Qed.

Lemma SanitizeReader_trace (html_Parse : string -> option Node)
    (url_Parse : string -> option URL) (fuel : nat) (r : string) (p : option Policy) :
  SanitizeReader html_Parse url_Parse fuel r p =
  match html_Parse r with
  | None => ParseError
  | Some _ =>
      finish (option_map (writeEvents "")
                (sanitizeTrace html_Parse url_Parse fuel r p))
  end.
Proof.
  unfold SanitizeReader, sanitizeTrace.
  destruct (html_Parse r) as [doc|]; [|reflexivity].
  destruct (findBody doc) as [body|]; f_equal.
  - apply forChildren_trace. intros c b. apply walk_trace.
  - apply walk_trace.
Qed.

Lemma SanitizeReader_events (html_Parse : string -> option Node)
    (url_Parse : string -> option URL) (fuel : nat) (r : string) (p : option Policy)
    (evs : list Event) :
  sanitizeTrace html_Parse url_Parse fuel r p = Some evs ->
  SanitizeReader html_Parse url_Parse fuel r p = Ok (writeEvents "" evs).
Proof.
  intros Hevs. rewrite SanitizeReader_trace. rewrite Hevs.
  unfold sanitizeTrace in Hevs. destruct (html_Parse r); [reflexivity | discriminate].
Qed.

(** ** Facts on the walker *)

Section WalkFacts.

Variable html_Parse : string -> option Node.
Variable url_Parse : string -> option URL.
Variable p : Policy.
Variable allowedTags : gset string.
Variable allowedSchemes : gset string.

#[local] Abbreviation walk' := (walk html_Parse url_Parse p allowedTags allowedSchemes).
#[local] Abbreviation trace' := (trace html_Parse url_Parse p allowedTags allowedSchemes).
#[local] Abbreviation filter' := (fun n => withAttr n
  (filterAttrs html_Parse url_Parse (Attr n) (ToLower (Data n))
     (AllowedAttributes p) allowedSchemes)).

(** C9. A comment node and a doctype node write nothing, whatever the
    policy, the depth and the buffer, and their children are not
    walked: the call returns with the buffer unchanged even when no
    nested call is available. *)
Theorem comment_doctype_dropped (fuel : nat) (data : string)
    (attrs : list Attribute) (cs : list Node) (depth : Z) (buf : string) :
  walk' (S fuel) (mkNode CommentNode data attrs cs) depth buf = Some buf
  /\ walk' (S fuel) (mkNode DoctypeNode data attrs cs) depth buf = Some buf
  /\ trace' (S fuel) (mkNode CommentNode data attrs cs) depth = Some []
  /\ trace' (S fuel) (mkNode DoctypeNode data attrs cs) depth = Some [].
Proof. repeat split; reflexivity. Qed.

Lemma runTransformers_app (ts1 ts2 : list Transformer) (n : Node) :
  runTransformers (ts1 ++ ts2) n =
  match runTransformers ts1 n with
  | None => None
  | Some m => runTransformers ts2 m
  end.
Proof.
  revert n. induction ts1 as [|t ts1 IH]; intros n; simpl; [reflexivity|].
  destruct (t n) as [n'|]; [apply IH | reflexivity].
Qed.

Lemma transformerCalls_veto (ts1 ts2 : list Transformer) (t : Transformer)
    (n m : Node) :
  runTransformers ts1 n = Some m -> t m = None ->
  transformerCalls (ts1 ++ t :: ts2) n = transformerCalls ts1 n ++ [m]
  /\ length (transformerCalls ts1 n) = length ts1.
Proof.
  revert n. induction ts1 as [|t1 ts1 IH]; intros n Hrun Hveto; simpl in *.
  - injection Hrun as ->. rewrite Hveto. split; reflexivity.
  - destruct (t1 n) as [n'|]; [|discriminate].
    destruct (IH n' Hrun Hveto) as [-> ->]. split; reflexivity.
Qed.

Lemma transformerCalls_all (ts : list Transformer) (n m : Node) :
  runTransformers ts n = Some m ->
  length (transformerCalls ts n) = length ts.
Proof.
  revert n. induction ts as [|t ts IH]; intros n Hrun; simpl in *; [reflexivity|].
  destruct (t n) as [n'|]; [|discriminate]. now rewrite (IH n' Hrun).
Qed.

Lemma walk_allowed (fuel : nat) (n : Node) (depth : Z) (buf : string) :
  NType n = ElementNode ->
  allowed p allowedTags (ToLower (Data n)) depth = true ->
  walk' (S fuel) n depth buf =
  match runTransformers (Transformers p) (filter' n) with
  | None => Some buf
  | Some m =>
      let tag := ToLower (Data n) in
      let buf := writeAttrs (buf +:+ "<" +:+ tag) (Attr m) in
      if isVoidElement tag then Some (buf +:+ " />")
      else
        match forChildren (fun c b => walk' fuel c (depth + 1) b)
                (Children m) (buf +:+ ">") with
        | None => None
        | Some buf => Some (buf +:+ "</" +:+ tag +:+ ">")
        end
  end.
Proof. intros Hty Hal. simpl. rewrite Hty, Hal. reflexivity. Qed.

Lemma trace_allowed (fuel : nat) (n : Node) (depth : Z) :
  NType n = ElementNode ->
  allowed p allowedTags (ToLower (Data n)) depth = true ->
  trace' (S fuel) n depth =
  match runTransformers (Transformers p) (filter' n) with
  | None => Some []
  | Some m =>
      let tag := ToLower (Data n) in
      if isVoidElement tag then Some [EvOpen tag (Attr m) true]
      else
        match traceChildren (fun c => trace' fuel c (depth + 1)) (Children m) with
        | None => None
        | Some evs => Some (EvOpen tag (Attr m) false :: evs ++ [EvClose tag])
        end
  end.
Proof. intros Hty Hal. simpl. rewrite Hty, Hal. reflexivity. Qed.


Lemma walk_disallowed (fuel : nat) (n : Node) (depth : Z) (buf : string) :
  NType n = ElementNode ->
  allowed p allowedTags (ToLower (Data n)) depth = false ->
  walk' (S fuel) n depth buf =
  if StripDisallowed p then Some buf
  else
    match forChildren (fun c b => walk' fuel c (depth + 1) b) (Children n)
            (buf +:+ EscapeString (renderOpenTag n)) with
    | None => None
    | Some buf =>
        if negb (isVoidElement (ToLower (Data n)))
        then Some (buf +:+ EscapeString ("</" +:+ ToLower (Data n) +:+ ">"))
        else Some buf
    end.
Proof. intros Hty Hal. simpl. rewrite Hty, Hal. reflexivity. Qed.

Lemma trace_disallowed (fuel : nat) (n : Node) (depth : Z) :
  NType n = ElementNode ->
  allowed p allowedTags (ToLower (Data n)) depth = false ->
  trace' (S fuel) n depth =
  if StripDisallowed p then Some []
  else
    match traceChildren (fun c => trace' fuel c (depth + 1)) (Children n) with
    | None => None
    | Some evs =>
        Some (EvEscaped (renderOpenTag n) :: evs ++
              (if negb (isVoidElement (ToLower (Data n)))
               then [EvEscaped ("</" +:+ ToLower (Data n) +:+ ">")] else []))
    end.
Proof. intros Hty Hal. simpl. rewrite Hty, Hal. reflexivity. Qed.

Lemma tooDeep_beyond (depth : Z) :
  0 < MaxDepth p -> MaxDepth p < depth -> tooDeep p depth = true.
Proof. intros H0 H1. unfold tooDeep. apply andb_true_iff. split; lia. Qed.

Lemma allowed_beyond (tag : string) (depth : Z) :
  0 < MaxDepth p -> MaxDepth p < depth -> allowed p allowedTags tag depth = false.
Proof.
  intros H0 H1. unfold allowed. rewrite tooDeep_beyond by assumption.
  apply andb_false_r.
Qed.

Lemma allowed_within (tag : string) (depth : Z) :
  depth <= MaxDepth p -> inSet allowedTags tag = true ->
  allowed p allowedTags tag depth = true.
Proof.
  intros Hd Hin. unfold allowed, tooDeep. rewrite Hin. simpl.
  apply negb_true_iff, andb_false_iff. right. lia.
Qed.

(** Where no tag is allowed, no element is written as a live tag. *)
Lemma no_open_where_disallowed (Q : Z -> Prop) :
  (forall d, Q d -> Q (d + 1)) ->
  (forall tag d, Q d -> allowed p allowedTags tag d = false) ->
  forall fuel n depth evs,
    Q depth ->
    trace' fuel n depth = Some evs ->
    Forall (fun e => isOpen e = false) evs.
Proof.
  intros Hstep Hdis. induction fuel as [|fuel IH]; intros n depth evs Hd Htr;
    [discriminate|].
  assert (Hch : forall d' es, Q d' ->
            traceChildren (fun c => trace' fuel c d') (Children n) = Some es ->
            Forall (fun e => isOpen e = false) es).
  { intros d' es Hd' Hes. eapply traceChildren_Forall; [|exact Hes].
    intros c e _ He. now apply (IH c d'). }
  destruct (NType n) eqn:Hty.
  - (* error node *) simpl in Htr; rewrite Hty in Htr. now apply (Hch depth).
  - (* text *) simpl in Htr; rewrite Hty in Htr. injection Htr as <-. repeat constructor.
  - (* document *) simpl in Htr; rewrite Hty in Htr. now apply (Hch depth).
  - (* element *)
    rewrite trace_disallowed in Htr by (try assumption; now apply Hdis).
    destruct (StripDisallowed p); [injection Htr as <-; constructor|].
    destruct (traceChildren _ _) as [es|] eqn:Hes; [|discriminate].
    injection Htr as <-. constructor; [reflexivity|]. apply Forall_app. split.
    + apply (Hch (depth + 1)); [now apply Hstep | exact Hes].
    + destruct (negb _); repeat constructor.
  - (* comment *) simpl in Htr; rewrite Hty in Htr. injection Htr as <-. constructor.
  - (* doctype *) simpl in Htr; rewrite Hty in Htr. injection Htr as <-. constructor.
  - (* raw *) simpl in Htr; rewrite Hty in Htr. now apply (Hch depth).
Qed.

(** Beyond the depth limit no element is written as a live tag. *)
Lemma no_open_beyond_depth (fuel : nat) :
  0 < MaxDepth p ->
  forall n depth evs,
    MaxDepth p < depth ->
    trace' fuel n depth = Some evs ->
    Forall (fun e => isOpen e = false) evs.
Proof.
  intros Hmax n depth evs.
  apply (no_open_where_disallowed (fun d => MaxDepth p < d)).
  - intros d Hd. lia.
  - intros tag d Hd. now apply allowed_beyond.
Qed.

(** Without transformers the walk of a tree returns once the fuel covers
    the height of the tree. *)
Lemma trace_total (fuel : nat) :
  Transformers p = [] ->
  forall n depth, (height n <= fuel)%nat -> exists evs, trace' fuel n depth = Some evs.
Proof.
  intros Hts. induction fuel as [|fuel IH]; intros n depth Hh.
  - destruct n; simpl in Hh; lia.
  - assert (Hch : forall d', exists es,
              traceChildren (fun c => trace' fuel c d') (Children n) = Some es).
    { intros d'. apply traceChildren_total. intros c Hin. apply IH.
      pose proof (height_child n c Hin). lia. }
    destruct (NType n) eqn:Hty;
      try (simpl; rewrite Hty; solve [eauto | apply Hch]).
    destruct (allowed p allowedTags (ToLower (Data n)) depth) eqn:Hal.
    + rewrite trace_allowed by assumption. rewrite Hts. simpl.
      destruct (isVoidElement _); [eauto|].
      destruct (Hch (depth + 1)) as [es ->]. eauto.
    + rewrite trace_disallowed by assumption.
      destruct (StripDisallowed p); [eauto|].
      destruct (Hch (depth + 1)) as [es ->]. eauto.
Qed.

Lemma walk_total (fuel : nat) (n : Node) (depth : Z) (buf : string) :
  Transformers p = [] -> (height n <= fuel)%nat ->
  exists out, walk' fuel n depth buf = Some out.
Proof.
  intros Hts Hh. destruct (trace_total fuel Hts n depth Hh) as [evs Hevs].
  exists (writeEvents buf evs). rewrite walk_trace. now rewrite Hevs.
Qed.

(** In escape mode and without transformers, the text of every text node
    of a parser-shaped tree is written. *)
Lemma texts_present (fuel : nat) :
  Transformers p = [] -> StripDisallowed p = false ->
  forall n depth evs,
    parserShaped n = true ->
    trace' fuel n depth = Some evs ->
    forall t, In t (textsOf n) -> In (EvText (writeText p "" t)) evs.
Proof.
  intros Hts Hstrip. induction fuel as [|fuel IH]; intros n depth evs Hps Htr t Ht;
    [discriminate|].
  assert (Hch : forall d' es,
            forallb parserShaped (Children n) = true ->
            traceChildren (fun c => trace' fuel c d') (Children n) = Some es ->
            In t (flat_map textsOf (Children n)) ->
            In (EvText (writeText p "" t)) es).
  { intros d' es Hall Hes Hin. apply in_flat_map in Hin as (c & Hc & Htc).
    destruct (traceChildren_In _ _ _ c Hes Hc) as (e & He & Hsub).
    apply Hsub. apply (IH c d' e); [|exact He|exact Htc].
    rewrite forallb_forall in Hall. now apply Hall. }
  destruct n as [ty d a cs]. simpl in Ht, Hps, Hch.
  destruct ty; simpl in Ht, Hps; unfold isType in Ht; simpl in Ht.
  - (* error node *) simpl in Htr. now apply (Hch depth evs).
  - (* text *) simpl in Htr. destruct cs; [|discriminate]. injection Htr as <-.
    destruct Ht as [<- | []]. now left.
  - (* document *) simpl in Htr. now apply (Hch depth evs).
  - (* element *)
    destruct (allowed p allowedTags (ToLower d) depth) eqn:Hal.
    + rewrite trace_allowed in Htr by (try reflexivity; exact Hal).
      rewrite Hts in Htr. simpl in Htr.
      destruct (isVoidElement (ToLower d)).
      * destruct cs; [destruct Ht | discriminate].
      * destruct (traceChildren _ _) as [es|] eqn:Hes; [|discriminate].
        injection Htr as <-. right. apply in_or_app. left.
        now apply (Hch (depth + 1) es).
    + rewrite trace_disallowed in Htr by (try reflexivity; exact Hal).
      rewrite Hstrip in Htr. simpl in Htr.
      destruct (traceChildren _ _) as [es|] eqn:Hes; [|discriminate].
      injection Htr as <-. right. apply in_or_app. left.
      destruct (isVoidElement (ToLower d)).
      * destruct cs; [destruct Ht | discriminate].
      * now apply (Hch (depth + 1) es).
  - (* comment *) destruct cs; [|discriminate]. destruct Ht.
  - (* doctype *) destruct cs; [|discriminate]. destruct Ht.
  - (* raw *) simpl in Htr. now apply (Hch depth evs).
Qed.

Lemma trace_text_child (fuel : nat) (c : Node) (depth : Z) (e : list Event) :
  NType c = TextNode -> trace' fuel c depth = Some e ->
  e = [EvText (writeText p "" (Data c))].
Proof.
  intros Hty He. destruct fuel as [|fuel]; [discriminate|].
  simpl in He. rewrite Hty in He. now injection He as <-.
Qed.


(** C3 (as amended). With [MaxDepth = N > 0], an element met at a depth
    above [N] is handled as a disallowed element: in strip mode nothing is
    written for it or below it; in escape mode its tags are written
    escaped and its children are walked.  In both modes no element at a
    depth above [N] is written as a live tag.  An element with an allowed
    tag at a depth of at most [N] is handled as an allowed element. *)
Theorem depth_limit (fuel : nat) (n : Node) (depth : Z) (buf : string) :
  0 < MaxDepth p -> MaxDepth p < depth ->
  (NType n = ElementNode ->
     (StripDisallowed p = true ->
        walk' (S fuel) n depth buf = Some buf /\ trace' (S fuel) n depth = Some [])
     /\ (StripDisallowed p = false ->
         walk' (S fuel) n depth buf =
         match forChildren (fun c b => walk' fuel c (depth + 1) b) (Children n)
                 (buf +:+ EscapeString (renderOpenTag n)) with
         | None => None
         | Some buf =>
             if negb (isVoidElement (ToLower (Data n)))
             then Some (buf +:+ EscapeString ("</" +:+ ToLower (Data n) +:+ ">"))
             else Some buf
         end))
  /\ (forall evs, trace' fuel n depth = Some evs ->
        Forall (fun e => isOpen e = false) evs)
  /\ (forall m d', d' <= MaxDepth p -> NType m = ElementNode ->
        inSet allowedTags (ToLower (Data m)) = true ->
        allowed p allowedTags (ToLower (Data m)) d' = true
        /\ walk' (S fuel) m d' buf =
           match runTransformers (Transformers p) (filter' m) with
           | None => Some buf
           | Some m' =>
               let tag := ToLower (Data m) in
               let buf := writeAttrs (buf +:+ "<" +:+ tag) (Attr m') in
               if isVoidElement tag then Some (buf +:+ " />")
               else
                 match forChildren (fun c b => walk' fuel c (d' + 1) b)
                         (Children m') (buf +:+ ">") with
                 | None => None
                 | Some buf => Some (buf +:+ "</" +:+ tag +:+ ">")
                 end
           end).
Proof.
  intros Hmax Hd. split; [|split].
  - intros Hty.
    assert (Hal : allowed p allowedTags (ToLower (Data n)) depth = false)
      by now apply allowed_beyond.
    split; intros Hs.
    + rewrite walk_disallowed, trace_disallowed by assumption. now rewrite Hs.
    + rewrite walk_disallowed by assumption. now rewrite Hs.
  - intros evs Hevs. now apply (no_open_beyond_depth fuel Hmax n depth).
  - intros m d' Hd' Hty Hin.
    assert (Hal : allowed p allowedTags (ToLower (Data m)) d' = true)
      by now apply allowed_within.
    split; [exact Hal|]. now apply walk_allowed.
Qed.

End WalkFacts.


(** ** Examples for the strip and escape modes and the depth limit *)



Lemma depth_limit_witness :
  let p := withStrip (withMaxDepth DefaultPolicy 2) true in
  walkWith p 1 (elem "div" [] [elem "b" [] [text "deep"]]) 3 "<div><div>"
    = Some "<div><div>"
  /\ allowed p (sliceToSet (AllowedTags p)) "div" 2 = true.
Proof.
  intros p.
  destruct (depth_limit recordedParse recordedURL p
              (sliceToSet (AllowedTags p)) (sliceToSet (AllowedSchemes p))
              0 (elem "div" [] [elem "b" [] [text "deep"]]) 3 "<div><div>"
              ltac:(simpl; lia) ltac:(simpl; lia)) as (Hel & _ & Hkeep).
  split.
  - apply (proj1 (Hel eq_refl)). reflexivity.
  - apply (proj1 (Hkeep (elem "div" [] []) 2 ltac:(simpl; lia) eq_refl
                    ltac:(vm_compute; reflexivity))).
Defined.

(** With the permissive preset (escape mode) and [MaxDepth = 2], the
    elements at depths 3 and 4 are not absent: their tags are written
    escaped and their text is written. *)
Lemma depth_limit_escape_counterexample :
  let p := withMaxDepth DefaultPolicy 2 in
  let out := "<div><div>&lt;div&gt;&lt;b&gt;deep&lt;/b&gt;&lt;/div&gt;</div></div>" in
  StripDisallowed p = false
  /\ MaxDepth p = 2
  /\ sanitize 5 "<div><div><div><b>deep</b></div></div></div>" (Some p) = Ok out
  /\ walkWith p 5 deepTree 1 "" = Some out
  /\ occursIn "deep" out
  /\ occursIn "&lt;b&gt;" out.
Proof.
  intros p out. repeat split; try (vm_compute; reflexivity);
    apply Contains_spec; vm_compute; reflexivity.
Qed.

(** ** The presets and the missing policy *)

Section Presets.

Variable html_Parse : string -> option Node.
Variable url_Parse : string -> option URL.

Lemma empty_policy_allows_nothing (tag : string) (depth : Z) :
  allowed emptyPolicy (sliceToSet (AllowedTags emptyPolicy)) tag depth = false.
Proof.
  unfold allowed, inSet. simpl.
  rewrite bool_decide_eq_false_2; [reflexivity|]. apply not_elem_of_empty.
Qed.

(** C7 (as amended). A nil policy is replaced by the permissive preset:
    the call is the call with [DefaultPolicy], and its only error is the
    error of the parser.  The zero policy value is not replaced: it
    allows no tag, so no element is written as a live tag under it. *)
Theorem nil_policy_is_default (fuel : nat) (s : string) :
  Sanitize html_Parse url_Parse fuel s None
    = Sanitize html_Parse url_Parse fuel s (Some DefaultPolicy)
  /\ SanitizeReader html_Parse url_Parse fuel s None
     = SanitizeReader html_Parse url_Parse fuel s (Some DefaultPolicy)
  /\ (Sanitize html_Parse url_Parse fuel s None = ParseError <-> html_Parse s = None)
  /\ forall evs,
       sanitizeTrace html_Parse url_Parse fuel s (Some emptyPolicy) = Some evs ->
       Sanitize html_Parse url_Parse fuel s (Some emptyPolicy)
         = Ok (writeEvents "" evs)
       /\ Forall (fun e => isOpen e = false) evs.
Proof.
  split; [reflexivity|]. split; [reflexivity|]. split.
  { unfold Sanitize, SanitizeReader. destruct (html_Parse s) as [doc|].
    - split; [|discriminate]. destruct (findBody doc).
      + destruct (forChildren _ _ _); discriminate.
      + destruct (walk _ _ _ _ _ _ _ _ _); discriminate.
    - split; reflexivity. }
  intros evs Hevs. split.
  - unfold Sanitize. now apply SanitizeReader_events.
  - unfold sanitizeTrace in Hevs.
    destruct (html_Parse s) as [doc|]; [|discriminate].
    assert (Hnode : forall n d es,
              trace html_Parse url_Parse emptyPolicy
                (sliceToSet (AllowedTags emptyPolicy))
                (sliceToSet (AllowedSchemes emptyPolicy)) fuel n d = Some es ->
              Forall (fun e => isOpen e = false) es).
    { intros n d es. apply (no_open_where_disallowed html_Parse url_Parse emptyPolicy
                              _ _ (fun _ => True)); try exact I.
      - intros _ _. exact I.
      - intros tag d' _. apply empty_policy_allows_nothing. }
    destruct (findBody doc) as [body|].
    + eapply traceChildren_Forall; [|exact Hevs]. intros c e _. apply Hnode.
    + now apply (Hnode doc 0).
Qed.

(** C5. With the permissive preset the script element of the scenario is
    escaped, not removed: the preset leaves [StripDisallowed] unset, so
    the tags are written as text and the content follows. *)
Theorem default_policy_escapes_script (fuel : nat) :
  (3 <= fuel)%nat ->
  html_Parse "<b>Hello</b> <script>alert('xss')</script>"
    = Some (document [elem "b" [] [text "Hello"]; text " ";
                      elem "script" [] [text "alert('xss')"]]) ->
  Sanitize html_Parse url_Parse fuel
    "<b>Hello</b> <script>alert('xss')</script>" (Some DefaultPolicy)
    = Ok "<b>Hello</b> &lt;script&gt;alert(&#39;xss&#39;)&lt;/script&gt;".
Proof.
  intros Hfuel Hparse.
  destruct fuel as [|[|[|fuel]]]; try lia.
  unfold Sanitize, SanitizeReader. rewrite Hparse.
  vm_compute. reflexivity.
Qed.

End Presets.

Lemma default_policy_escapes_script_witness :
  sanitize 3 "<b>Hello</b> <script>alert('xss')</script>" (Some DefaultPolicy)
    = Ok "<b>Hello</b> &lt;script&gt;alert(&#39;xss&#39;)&lt;/script&gt;"
  /\ StripDisallowed DefaultPolicy = false.
Proof.
  split; [|reflexivity].
  apply (default_policy_escapes_script recordedParse recordedURL 3);
    [lia | reflexivity].
Defined.

Lemma nil_policy_is_default_witness :
  sanitize 3 "<b>x</b>" None = sanitize 3 "<b>x</b>" (Some DefaultPolicy)
  /\ Forall (fun e => isOpen e = false)
       [EvEscaped "<b>"; EvText "x"; EvEscaped "</b>"].
Proof.
  destruct (nil_policy_is_default recordedParse recordedURL 3 "<b>x</b>")
    as (Hnil & _ & _ & Hempty).
  split; [exact Hnil|].
  apply (proj2 (Hempty [EvEscaped "<b>"; EvText "x"; EvEscaped "</b>"] eq_refl)).
Defined.

(** The zero policy value is used as it is, and differs from the preset. *)
Lemma empty_policy_counterexample :
  sanitize 3 "<b>x</b>" (Some emptyPolicy) = Ok "&lt;b&gt;x&lt;/b&gt;"
  /\ sanitize 3 "<b>x</b>" (Some DefaultPolicy) = Ok "<b>x</b>"
  /\ sanitize 3 "<b>x</b>" (Some emptyPolicy)
     <> sanitize 3 "<b>x</b>" (Some DefaultPolicy).
Proof.
  assert (H1 : sanitize 3 "<b>x</b>" (Some emptyPolicy) = Ok "&lt;b&gt;x&lt;/b&gt;")
    by (vm_compute; reflexivity).
  assert (H2 : sanitize 3 "<b>x</b>" (Some DefaultPolicy) = Ok "<b>x</b>")
    by (vm_compute; reflexivity).
  split; [exact H1|]. split; [exact H2|]. rewrite H1, H2. discriminate.
Qed.

(** ** The text extractor *)

Lemma stripWalk_children (cs : list Node) :
  Forall (fun c => forall buf, stripWalk c buf = buf +:+ textContent c) cs ->
  forall b, fold_left (fun b c => stripWalk c b) cs b
            = b +:+ fold_right (fun c acc => textContent c +:+ acc) "" cs.
Proof.
  induction 1 as [|c cs Hc _ IH]; intros b; simpl.
  - now rewrite sapp_nil_r.
  - rewrite IH, Hc. now rewrite sapp_assoc.
Qed.

Lemma stripWalk_textContent (n : Node) :
  forall buf, stripWalk n buf = buf +:+ textContent n.
Proof.
  induction n as [t d a cs IH] using Node_forall_ind. intros buf.
  change (stripWalk (mkNode t d a cs) buf)
    with (fold_left (fun b c => stripWalk c b) cs
            (if isType (mkNode t d a cs) TextNode then buf +:+ d else buf)).
  change (textContent (mkNode t d a cs))
    with ((if isType (mkNode t d a cs) TextNode then d else "")
            +:+ fold_right (fun c acc => textContent c +:+ acc) "" cs).
  rewrite (stripWalk_children cs IH).
  destruct (isType _ _).
  - now rewrite sapp_assoc.
  - reflexivity.
Qed.

Section Extractor.

Variable html_Parse : string -> option Node.

Lemma StripTags_textContent (s : string) :
  StripTags html_Parse s =
  match html_Parse s with
  | None => None
  | Some doc => Some (textContent (bodyOrRoot doc))
  end.
Proof.
  unfold StripTags, bodyOrRoot. destruct (html_Parse s) as [doc|]; [|reflexivity].
  destruct (findBody doc); now rewrite stripWalk_textContent.
Qed.

(** C8 (as amended). [StripTags] returns the text content of the tree
    below the body.  Applied to its own output it returns that output
    exactly when the output parses to a tree with that text content, as
    it does when the parser reads the output as plain text. *)
Theorem stripTags_fixed_point (s out : string) :
  StripTags html_Parse s = Some out ->
  (exists doc, html_Parse s = Some doc /\ out = textContent (bodyOrRoot doc))
  /\ (forall doc', html_Parse out = Some doc' ->
        (StripTags html_Parse out = Some out <-> textContent (bodyOrRoot doc') = out))
  /\ (html_Parse out = Some (plainDocument out) ->
      StripTags html_Parse out = Some out).
Proof.
  intros Hs. rewrite StripTags_textContent in Hs. split; [|split].
  - destruct (html_Parse s) as [doc|]; [|discriminate].
    exists doc. split; [reflexivity|]. now injection Hs as <-.
  - intros doc' Hdoc'. rewrite StripTags_textContent, Hdoc'. split.
    + intros H. now injection H.
    + intros ->. reflexivity.
  - intros Hplain. rewrite StripTags_textContent, Hplain.
    unfold plainDocument. destruct (String.eqb out "") eqn:E.
    + apply String.eqb_eq in E. subst out. reflexivity.
    + unfold bodyOrRoot. simpl. now rewrite !sapp_nil_r.
Qed.

End Extractor.

Lemma stripTags_fixed_point_witness :
  stripTags "<p>Hello <b>world</b></p>" = Some "Hello world"
  /\ stripTags "Hello world" = Some "Hello world".
Proof.
  assert (H : stripTags "<p>Hello <b>world</b></p>" = Some "Hello world")
    by reflexivity.
  split; [exact H|].
  apply (proj2 (proj2 (stripTags_fixed_point recordedParse _ _ H))).
  reflexivity.
Defined.

(** An output that spells markup is reduced by a second pass. *)
Lemma stripTags_counterexample :
  stripTags "&lt;b&gt;x&lt;/b&gt;" = Some "<b>x</b>"
  /\ stripTags "<b>x</b>" = Some "x"
  /\ stripTags "<b>x</b>" <> Some "<b>x</b>".
Proof. repeat split; try reflexivity. discriminate. Qed.

(** ** The attribute and scheme filters *)

Lemma elem_of_sliceToSet (l : list string) (k : string) :
  k ∈ sliceToSet l <-> exists x, In x l /\ ToLower x = k.
Proof.
  unfold sliceToSet. rewrite elem_of_list_to_set, list_elem_of_In, in_map_iff.
  split; intros (x & H1 & H2); exists x; tauto.
Qed.

Section SchemeFilter.

Variable html_Parse : string -> option Node.
Variable url_Parse : string -> option URL.

#[local] Abbreviation schemeAllowed' := (schemeAllowed html_Parse url_Parse).
#[local] Abbreviation filterAttrs' := (filterAttrs html_Parse url_Parse).

Lemma schemeAllowed_true (raw : string) (schemes : gset string) :
  schemeAllowed' raw schemes = true <->
  exists u, url_Parse (normalizeURL html_Parse raw) = Some u
            /\ (ToLower (Scheme u) = "" \/ ToLower (Scheme u) ∈ schemes).
Proof.
  unfold schemeAllowed. destruct (url_Parse _) as [u|].
  - destruct (String.eqb (ToLower (Scheme u)) "") eqn:E.
    + apply String.eqb_eq in E. split; [|reflexivity].
      intros _. exists u. split; [reflexivity | now left].
    + apply String.eqb_neq in E. unfold inSet. rewrite bool_decide_eq_true. split.
      * intros Hin. exists u. split; [reflexivity | now right].
      * intros (u' & Hu & [H | H]); injection Hu as <-; [contradiction | exact H].
  - split; [discriminate | intros (u & Hu & _); discriminate].
Qed.

Lemma filterAttrs_In (attrs : list Attribute) (tag : string)
    (al : gmap string (list string)) (schemes : gset string) (a : Attribute) :
  In a (filterAttrs' attrs tag al schemes) <->
  In a attrs
  /\ attrAllowed (Key a) tag al = true
  /\ (isURLKey (Key a) = true -> schemeAllowed' (Val a) schemes = true).
Proof.
  induction attrs as [|b rest IH]; simpl; [tauto|].
  destruct (attrAllowed (Key b) tag al) eqn:Eal; simpl.
  - destruct (isURLKey (Key b)) eqn:Eurl; simpl.
    + destruct (schemeAllowed' (Val b) schemes) eqn:Esch; simpl.
      * rewrite IH. split.
        -- intros [<- | (H1 & H2 & H3)]; [tauto | tauto].
        -- intros ([<- | H1] & H2 & H3); [now left | right; tauto].
      * rewrite IH. split; [tauto|].
        intros ([<- | H1] & H2 & H3); [|tauto].
        specialize (H3 Eurl). congruence.
    + rewrite IH. split.
      * intros [<- | (H1 & H2 & H3)]; [|tauto].
        split; [now left|]. split; [exact Eal | congruence].
      * intros ([<- | H1] & H2 & H3); [now left | right; tauto].
  - rewrite IH. split; [tauto|].
    intros ([<- | H1] & H2 & H3); [congruence | tauto].
Qed.

Lemma filterAttrs_sublist (attrs : list Attribute) (tag : string)
    (al : gmap string (list string)) (schemes : gset string) :
  filterAttrs' attrs tag al schemes `sublist_of` attrs.
Proof.
  induction attrs as [|b rest IH]; simpl; [constructor|].
  destruct (negb _); [now apply sublist_cons|].
  destruct (_ && _); [now apply sublist_cons | now apply sublist_skip].
Qed.

(** Without transformers, every href, src and action attribute written on
    a live tag is one the scheme validator accepted. *)
Lemma live_url_attrs_approved (p : Policy) (allowedTags allowedSchemes : gset string)
    (fuel : nat) :
  Transformers p = [] ->
  forall n depth evs,
    trace html_Parse url_Parse p allowedTags allowedSchemes fuel n depth = Some evs ->
    forall tag attrs void a,
      In (EvOpen tag attrs void) evs -> In a attrs -> isURLKey (Key a) = true ->
      schemeAllowed' (Val a) allowedSchemes = true.
Proof.
  intros Hts. induction fuel as [|fuel IH]; intros n depth evs Htr tag attrs void a Hev Ha Hurl;
    [discriminate|].
  assert (Hch : forall d' es,
            traceChildren (fun c => trace html_Parse url_Parse p allowedTags
                                      allowedSchemes fuel c d') (Children n) = Some es ->
            In (EvOpen tag attrs void) es ->
            schemeAllowed' (Val a) allowedSchemes = true).
  { intros d' es Hes Hin.
    assert (HF : Forall (fun e => e = EvOpen tag attrs void ->
                                  schemeAllowed' (Val a) allowedSchemes = true) es).
    { eapply traceChildren_Forall; [|exact Hes]. intros c e _ He.
      apply List.Forall_forall. intros x Hx ->.
      now apply (IH c d' e He tag attrs void a). }
    rewrite List.Forall_forall in HF. now apply (HF _ Hin). }
  destruct (NType n) eqn:Hty.
  - simpl in Htr; rewrite Hty in Htr. now apply (Hch depth evs).
  - simpl in Htr; rewrite Hty in Htr. injection Htr as <-.
    destruct Hev as [Hev | []]; discriminate.
  - simpl in Htr; rewrite Hty in Htr. now apply (Hch depth evs).
  - destruct (allowed p allowedTags (ToLower (Data n)) depth) eqn:Hal.
    + rewrite trace_allowed in Htr by assumption. rewrite Hts in Htr. simpl in Htr.
      destruct (isVoidElement _).
      * injection Htr as <-. destruct Hev as [Hev | []]. injection Hev as <- <- <-.
        apply filterAttrs_In in Ha. tauto.
      * destruct (traceChildren _ _) as [es|] eqn:Hes; [|discriminate].
        injection Htr as <-. destruct Hev as [Hev | Hev].
        -- injection Hev as <- <- <-. apply filterAttrs_In in Ha. tauto.
        -- apply in_app_or in Hev as [Hev | [Hev | []]]; [|discriminate].
           now apply (Hch (depth + 1) es).
    + rewrite trace_disallowed in Htr by assumption.
      destruct (StripDisallowed p); [injection Htr as <-; destruct Hev|].
      destruct (traceChildren _ _) as [es|] eqn:Hes; [|discriminate].
      injection Htr as <-. destruct Hev as [Hev | Hev]; [discriminate|].
      apply in_app_or in Hev as [Hev | Hev]; [now apply (Hch (depth + 1) es)|].
      destruct (negb _); [destruct Hev as [Hev | []]; discriminate | destruct Hev].
  - simpl in Htr; rewrite Hty in Htr. injection Htr as <-. destruct Hev.
  - simpl in Htr; rewrite Hty in Htr. injection Htr as <-. destruct Hev.
  - simpl in Htr; rewrite Hty in Htr. now apply (Hch depth evs).
Qed.

End SchemeFilter.

(** The attributes a transformer sets are written as they are: the
    filters have run before. *)
Lemma transformer_attrs_not_filtered_example :
  sanitize 3 "<a>y</a>" (Some (withTransformers DefaultPolicy [setScriptHref]))
  = Ok ("<a href=" +:+ DQ +:+ "javascript:alert(1)" +:+ DQ +:+ ">y</a>").
Proof. vm_compute. reflexivity. Qed.

Section Bypass.

Variable html_Parse : string -> option Node.
Variable url_Parse : string -> option URL.

Hypothesis parse_input :
  html_Parse smuggledInput
  = Some (document [elem "a" [attr "href" smuggled] [text "click"]]).
Hypothesis parse_fragment :
  html_Parse (hrefFragment smuggled)
  = Some (document [elem "a" [attr "href" "javascript:alert(1)//"] [];
                    elem "a" [attr "href" "https://ok"] []]).
Hypothesis parse_url_ok : url_Parse "https://ok" = Some (mkURL "https").
Hypothesis parse_url_value : url_Parse smuggled = Some (mkURL "javascript").

Lemma decode_smuggled : htmlDecodeMinimal html_Parse (TrimSpace smuggled) = "https://ok".
Proof.
  unfold htmlDecodeMinimal.
  change (TrimSpace smuggled) with smuggled.
  change ("<a href=" +:+ DQ +:+ smuggled +:+ DQ +:+ ">") with (hrefFragment smuggled).
  rewrite parse_fragment. reflexivity.
Qed.

Lemma smuggled_accepted (schemes : gset string) :
  inSet schemes "https" = true ->
  schemeAllowed html_Parse url_Parse smuggled schemes = true.
Proof.
  intros Hin. unfold schemeAllowed, normalizeURL. rewrite decode_smuggled.
  change (stripControl (ToLower (TrimSpace "https://ok"))) with "https://ok".
  rewrite parse_url_ok. exact Hin.
Qed.

(** C1. The scheme filter is bypassed by an attribute value that holds a
    double quote: [htmlDecodeMinimal] pastes the value unescaped into a
    fragment and keeps the href of the last anchor the parser finds, so
    the validator checks [https://ok] and accepts, while the attribute
    written to the output keeps its own value, whose scheme is
    [javascript] and is not allowed by the permissive preset. *)
Theorem scheme_filter_bypassed_by_quote (fuel : nat) :
  (2 <= fuel)%nat ->
  Sanitize html_Parse url_Parse fuel smuggledInput (Some DefaultPolicy)
    = Ok ("<a href=" +:+ DQ +:+ EscapeString smuggled +:+ DQ +:+ ">click</a>")
  /\ sanitizeTrace html_Parse url_Parse fuel smuggledInput (Some DefaultPolicy)
     = Some [EvOpen "a" [attr "href" smuggled] false; EvText "click"; EvClose "a"]
  /\ htmlDecodeMinimal html_Parse (TrimSpace smuggled) = "https://ok"
  /\ schemeAllowed html_Parse url_Parse smuggled
       (sliceToSet (AllowedSchemes DefaultPolicy)) = true
  /\ url_Parse (stripControl (ToLower (TrimSpace smuggled))) = Some (mkURL "javascript")
  /\ ~ In "javascript" (map ToLower (AllowedSchemes DefaultPolicy)).
Proof.
  intros Hfuel. destruct fuel as [|[|fuel]]; try lia.
  assert (Hacc : schemeAllowed html_Parse url_Parse smuggled
                   (sliceToSet (AllowedSchemes DefaultPolicy)) = true)
    by (apply smuggled_accepted; vm_compute; reflexivity).
  assert (Htrace : sanitizeTrace html_Parse url_Parse (S (S fuel)) smuggledInput
                     (Some DefaultPolicy)
                   = Some [EvOpen "a" [attr "href" smuggled] false; EvText "click";
                           EvClose "a"]).
  { unfold sanitizeTrace. rewrite parse_input.
    change (findBody _) with
      (Some (elem "body" [] [elem "a" [attr "href" smuggled] [text "click"]])).
    cbn [Children elem traceChildren].
    rewrite trace_allowed by (try reflexivity; vm_compute; reflexivity).
    cbn [Attr Data elem filterAttrs].
    change (ToLower "a") with "a".
    change (attrAllowed "href" "a" (AllowedAttributes DefaultPolicy)) with true.
    change (Key (attr "href" smuggled)) with "href".
    change (Val (attr "href" smuggled)) with smuggled.
    cbn [negb isURLKey]. change (isURLKey "href") with true.
    rewrite Hacc. reflexivity. }
  split; [|split; [exact Htrace|split; [apply decode_smuggled|split; [exact Hacc|split]]]].
  - unfold Sanitize. rewrite (SanitizeReader_events _ _ _ _ _ _ Htrace). reflexivity.
  - change (stripControl (ToLower (TrimSpace smuggled))) with smuggled.
    exact parse_url_value.
  - simpl. intros [H | [H | [H | []]]]; discriminate.
Qed.

End Bypass.

Lemma scheme_filter_bypassed_by_quote_witness :
  sanitize 2 smuggledInput (Some DefaultPolicy)
    = Ok ("<a href=" +:+ DQ +:+ EscapeString smuggled +:+ DQ +:+ ">click</a>")
  /\ recordedURL (stripControl (ToLower (TrimSpace smuggled))) = Some (mkURL "javascript").
Proof.
  destruct (scheme_filter_bypassed_by_quote recordedParse recordedURL
              eq_refl eq_refl eq_refl eq_refl 2 ltac:(lia))
    as (Hout & _ & _ & _ & Hurl & _).
  split; [exact Hout | exact Hurl].
Defined.

(** ** Sanitizing what the output spells *)

Lemma forChildren_app {S : Type} (body : Node -> S -> option S)
    (l1 l2 : list Node) (st : S) :
  forChildren body (l1 ++ l2) st =
  match forChildren body l1 st with
  | None => None
  | Some st' => forChildren body l2 st'
  end.
Proof.
  revert st. induction l1 as [|c l1 IH]; intros st; simpl; [reflexivity|].
  destruct (body c st); [apply IH | reflexivity].
Qed.

Lemma forChildren_ext {S : Type} (f g : Node -> S -> option S) (cs : list Node) :
  (forall c st, In c cs -> f c st = g c st) ->
  forall st, forChildren f cs st = forChildren g cs st.
Proof.
  induction cs as [|c cs IH]; intros Hfg st; simpl; [reflexivity|].
  rewrite Hfg by now left. destruct (g c st); [|reflexivity].
  apply IH. intros c' st' Hin. apply Hfg. now right.
Qed.

Lemma forChildren_map {S : Type} (f : Node -> S -> option S) (h : Node -> Node)
    (cs : list Node) (st : S) :
  forChildren f (map h cs) st = forChildren (fun c => f (h c)) cs st.
Proof.
  revert st. induction cs as [|c cs IH]; intros st; simpl; [reflexivity|].
  destruct (f (h c) st); [apply IH | reflexivity].
Qed.

Lemma forChildren_flat_map {S : Type} (f g : Node -> S -> option S)
    (h : Node -> list Node) (cs : list Node) :
  (forall c st o, In c cs -> f c st = Some o -> forChildren g (h c) st = Some o) ->
  forall st o, forChildren f cs st = Some o ->
               forChildren g (flat_map h cs) st = Some o.
Proof.
  induction cs as [|c cs IH]; intros Hfg st o Hf; simpl in *; [exact Hf|].
  destruct (f c st) as [st'|] eqn:E; [|discriminate].
  rewrite forChildren_app. rewrite (Hfg c st st' (or_introl eq_refl) E).
  apply IH; [|exact Hf]. intros c' s' o' Hin. apply Hfg. now right.
Qed.

Lemma EscapeString_app (a b : string) :
  EscapeString (a +:+ b) = EscapeString a +:+ EscapeString b.
Proof.
  induction a as [|c a IH]; simpl; [reflexivity|].
  rewrite IH. repeat (destruct (isByte c _); [reflexivity|]). reflexivity.
Qed.

Lemma lowerByte_idem (c : ascii) : lowerByte (lowerByte c) = lowerByte c.
Proof. destruct c as [[] [] [] [] [] [] [] []]; reflexivity. Qed.

Lemma ToLower_idem (s : string) : ToLower (ToLower s) = ToLower s.
Proof.
  induction s as [|c s IH]; simpl; [reflexivity|].
  now rewrite lowerByte_idem, IH.
Qed.

Section PlainPolicy.

Variable html_Parse : string -> option Node.
Variable url_Parse : string -> option URL.
Variable p : Policy.
Variable allowedTags : gset string.
Variable allowedSchemes : gset string.

Hypothesis no_linkify : Linkify p = false.
Hypothesis no_transformers : Transformers p = [].

#[local] Abbreviation walk' := (walk html_Parse url_Parse p allowedTags allowedSchemes).
#[local] Abbreviation spelled' := (spelled html_Parse url_Parse p allowedTags allowedSchemes).
#[local] Abbreviation filterAttrs' := (filterAttrs html_Parse url_Parse).

Lemma filterAttrs_idem (attrs : list Attribute) (tag : string)
    (al : gmap string (list string)) (schemes : gset string) :
  filterAttrs' (filterAttrs' attrs tag al schemes) tag al schemes
  = filterAttrs' attrs tag al schemes.
Proof.
  induction attrs as [|a rest IH]; simpl; [reflexivity|].
  destruct (attrAllowed (Key a) tag al) eqn:Eal; simpl; [|exact IH].
  destruct (isURLKey (Key a) && negb (schemeAllowed html_Parse url_Parse (Val a) schemes))
    eqn:Eurl; simpl; [exact IH|].
  rewrite Eal, Eurl. simpl. now rewrite IH.
Qed.

Lemma allowed_mono (tag : string) (d d' : Z) :
  d' <= d -> allowed p allowedTags tag d = true -> allowed p allowedTags tag d' = true.
Proof.
  unfold allowed, tooDeep. intros Hd H.
  apply andb_true_iff in H as [Hin Hdeep]. rewrite Hin. simpl.
  apply negb_true_iff in Hdeep. apply negb_true_iff.
  apply andb_false_iff in Hdeep as [H0 | H1]; apply andb_false_iff; [now left | right; lia].
Qed.

Lemma walk_text (fuel : nat) (s : string) (d : Z) (buf : string) :
  walk' (S fuel) (text s) d buf = Some (buf +:+ EscapeString s).
Proof. simpl. unfold writeText. now rewrite no_linkify. Qed.

(** Walking the spelled forest, at the same or a smaller depth and with
    at least the same fuel, writes what the walk of the tree wrote. *)
Lemma walk_spelled (fuel : nat) :
  forall n d buf out,
    walk' fuel n d buf = Some out ->
    forall fuel' d', (fuel <= fuel')%nat -> d' <= d ->
      forChildren (fun c b => walk' fuel' c d' b) (spelled' n d) buf = Some out.
Proof.
  induction fuel as [|fuel IH]; intros n d buf out Hw fuel' d' Hf Hd; [discriminate|].
  destruct fuel' as [|fuel']; [lia|].
  assert (Hch : forall dc dc' b o,
            dc' <= dc ->
            forChildren (fun c b => walk' fuel c dc b) (Children n) b = Some o ->
            forall k, (fuel <= k)%nat ->
            forChildren (fun c b => walk' k c dc' b)
              (flat_map (fun c => spelled' c dc) (Children n)) b = Some o).
  { intros dc dc' b o Hdc Ho k Hk.
    apply (forChildren_flat_map (fun c b => walk' fuel c dc b)); [|exact Ho].
    intros c st o' _ Hc. now apply (IH c dc st o' Hc k dc'). }
  destruct n as [ty data attrs cs]. simpl in Hch.
  destruct ty.
  - (* error node *) simpl in Hw. simpl spelled.
    apply (Hch d d' buf out Hd Hw (S fuel')). lia.
  - (* text *) simpl in Hw. unfold writeText in Hw. rewrite no_linkify in Hw.
    simpl spelled. cbn [forChildren]. rewrite walk_text. exact Hw.
  - (* document *) simpl in Hw. simpl spelled.
    apply (Hch d d' buf out Hd Hw (S fuel')). lia.
  - (* element *)
    destruct (allowed p allowedTags (ToLower data) d) eqn:Hal.
    + rewrite walk_allowed in Hw by (try reflexivity; exact Hal).
      rewrite no_transformers in Hw. cbn [runTransformers] in Hw. cbv zeta in Hw.
      cbn [Attr Children Data withAttr] in Hw.
      cbn [spelled NType Data Attr Children]. rewrite Hal.
      cbn [forChildren].
      rewrite walk_allowed
        by (cbn [NType Data elem]; try reflexivity;
            rewrite ToLower_idem; now apply (allowed_mono _ d d')).
      rewrite no_transformers. cbn [runTransformers]. cbv zeta.
      cbn [Attr Children Data withAttr elem]. rewrite ToLower_idem, filterAttrs_idem.
      destruct (isVoidElement (ToLower data)); [exact Hw|].
      destruct (forChildren _ cs _) as [b|] eqn:Hcs; [|discriminate].
      rewrite (Hch (d + 1) (d' + 1) _ b ltac:(lia) Hcs fuel') by lia.
      exact Hw.
    + rewrite walk_disallowed in Hw by (try reflexivity; exact Hal).
      cbn [spelled NType Data Attr Children]. rewrite Hal.
      destruct (StripDisallowed p); [exact Hw|].
      cbn [Children Data] in Hw.
      destruct (forChildren _ cs _) as [b|] eqn:Hcs; [|discriminate].
      cbn [forChildren]. rewrite walk_text. rewrite forChildren_app.
      rewrite (Hch (d + 1) d' _ b ltac:(lia) Hcs (S fuel')) by lia.
      destruct (negb (isVoidElement (ToLower data))).
      * cbn [forChildren]. rewrite walk_text. exact Hw.
      * exact Hw.
  - (* comment *) exact Hw.
  - (* doctype *) exact Hw.
  - (* raw *) simpl in Hw. simpl spelled.
    apply (Hch d d' buf out Hd Hw (S fuel')). lia.
Qed.

Lemma walk_textnode (fuel : nat) (n : Node) (d : Z) (buf : string) :
  isType n TextNode = true ->
  walk' (S fuel) n d buf = Some (buf +:+ EscapeString (Data n)).
Proof.
  intros Hty. unfold isType in Hty. simpl.
  destruct (NType n); try discriminate. unfold writeText. now rewrite no_linkify.
Qed.

Lemma mergeAdjacent_walk (fuel : nat) (d : Z) (ns : list Node) :
  forall buf,
    forChildren (fun c b => walk' fuel c d b) (mergeAdjacent ns) buf
    = forChildren (fun c b => walk' fuel c d b) ns buf.
Proof.
  induction ns as [|n rest IH]; intros buf; [reflexivity|].
  cbn [mergeAdjacent]. destruct (mergeAdjacent rest) as [|m r] eqn:E.
  - cbn [forChildren]. destruct (walk' fuel n d buf) as [b|]; [|reflexivity].
    now rewrite <- IH.
  - destruct (isType n TextNode && isType m TextNode) eqn:Et.
    + apply andb_true_iff in Et as [Hn Hm].
      cbn [forChildren]. destruct fuel as [|fuel]; [reflexivity|].
      rewrite walk_text, (walk_textnode _ n) by exact Hn.
      rewrite <- IH. cbn [forChildren]. rewrite (walk_textnode _ m) by exact Hm.
      now rewrite EscapeString_app, sapp_assoc.
    + cbn [forChildren]. destruct (walk' fuel n d buf) as [b|]; [|reflexivity].
      rewrite <- IH. reflexivity.
Qed.

Lemma coalesceNode_walk (fuel : nat) :
  forall n d buf, walk' fuel (coalesceNode n) d buf = walk' fuel n d buf.
Proof.
  induction fuel as [|fuel IH]; intros n d buf; [reflexivity|].
  destruct n as [ty data attrs cs].
  assert (Hch : forall dc b,
            forChildren (fun c b => walk' fuel c dc b)
              (mergeAdjacent (map coalesceNode cs)) b
            = forChildren (fun c b => walk' fuel c dc b) cs b).
  { intros dc b. rewrite mergeAdjacent_walk, forChildren_map.
    apply forChildren_ext. intros c st _. apply IH. }
  change (coalesceNode (mkNode ty data attrs cs))
    with (mkNode ty data attrs (mergeAdjacent (map coalesceNode cs))).
  destruct ty; try reflexivity; try (simpl; apply Hch).
  destruct (allowed p allowedTags (ToLower data) d) eqn:Hal.
  - rewrite !walk_allowed by (try reflexivity; exact Hal).
    rewrite no_transformers. cbn [runTransformers]. cbv zeta.
    cbn [Attr Children Data withAttr]. now rewrite Hch.
  - rewrite !walk_disallowed by (try reflexivity; exact Hal).
    cbn [Children Data]. unfold renderOpenTag. cbn [Attr Data]. now rewrite Hch.
Qed.

Lemma coalesce_walk (fuel : nat) (d : Z) (ns : list Node) (buf : string) :
  forChildren (fun c b => walk' fuel c d b) (coalesce ns) buf
  = forChildren (fun c b => walk' fuel c d b) ns buf.
Proof.
  unfold coalesce. rewrite mergeAdjacent_walk, forChildren_map.
  apply forChildren_ext. intros c st _. apply coalesceNode_walk.
Qed.

Lemma isDropped_withoutComments (n : Node) :
  isDropped (withoutComments n) = isDropped n.
Proof. now destruct n. Qed.

Lemma walk_dropped (fuel : nat) (n : Node) (d : Z) (buf : string) :
  isDropped n = true -> walk' (S fuel) n d buf = Some buf.
Proof.
  unfold isDropped, isType. intros H. simpl.
  destruct (NType n); try discriminate; reflexivity.
Qed.

(** Without transformers, the comment and doctype nodes of a tree have
    no part in what the walk writes. *)
Lemma walk_without_comments (fuel : nat) :
  forall n d buf out,
    walk' fuel n d buf = Some out ->
    walk' fuel (withoutComments n) d buf = Some out.
Proof.
  induction fuel as [|fuel IH]; intros n d buf out Hw; [discriminate|].
  destruct n as [ty data attrs cs].
  assert (Hch : forall dc b o,
            forChildren (fun c b => walk' fuel c dc b) cs b = Some o ->
            forChildren (fun c b => walk' fuel c dc b)
              (List.filter (fun c => negb (isDropped c)) (map withoutComments cs)) b
            = Some o).
  { intros dc. clear Hw. induction cs as [|c cs IHcs]; intros b o Ho; [exact Ho|].
    simpl in Ho. destruct (walk' fuel c dc b) as [b'|] eqn:Hc; [|discriminate].
    simpl. rewrite isDropped_withoutComments.
    destruct (isDropped c) eqn:Hdrop; simpl.
    - destruct fuel as [|fuel']; [discriminate|].
      rewrite walk_dropped in Hc by exact Hdrop. injection Hc as <-.
      now apply IHcs.
    - rewrite (IH c dc b b' Hc). now apply IHcs. }
  change (withoutComments (mkNode ty data attrs cs))
    with (mkNode ty data attrs
            (List.filter (fun c => negb (isDropped c)) (map withoutComments cs))).
  destruct ty; try exact Hw; try (simpl in *; now apply Hch).
  destruct (allowed p allowedTags (ToLower data) d) eqn:Hal.
  - rewrite walk_allowed in * by (try reflexivity; exact Hal).
    rewrite no_transformers in *. cbn [runTransformers] in *. cbv zeta in *.
    cbn [Attr Children Data withAttr] in *.
    destruct (isVoidElement _); [exact Hw|].
    destruct (forChildren _ cs _) as [b|] eqn:Hcs; [|discriminate].
    now rewrite (Hch _ _ _ Hcs).
  - rewrite walk_disallowed in * by (try reflexivity; exact Hal).
    destruct (StripDisallowed p); [exact Hw|].
    cbn [Children Data] in *. unfold renderOpenTag in *. cbn [Attr Data] in *.
    destruct (forChildren _ cs _) as [b|] eqn:Hcs; [|discriminate].
    now rewrite (Hch _ _ _ Hcs).
Qed.

End PlainPolicy.




(** A transformer need not be idempotent either. *)
Lemma transformer_not_idempotent_example :
  let p := withTransformers DefaultPolicy [extendTitle] in
  let out1 := "<abbr title=" +:+ DQ +:+ "!" +:+ DQ +:+ ">x</abbr>" in
  sanitize 3 "<abbr>x</abbr>" (Some p) = Ok out1
  /\ sanitize 3 out1 (Some p)
     = Ok ("<abbr title=" +:+ DQ +:+ "!!" +:+ DQ +:+ ">x</abbr>").
Proof. split; vm_compute; reflexivity. Qed.

(** ** Further laws of the attribute helpers *)

Lemma withAttr_same (n : Node) : withAttr n (Attr n) = n.
Proof. now destruct n. Qed.

Lemma setAttrList_overwrite (attrs : list Attribute) (k v1 v2 : string) :
  setAttrList (setAttrList attrs k v1) k v2 = setAttrList attrs k v2.
Proof.
  induction attrs as [|a rest IH]; simpl.
  - now rewrite String.eqb_refl.
  - destruct (String.eqb (Key a) k) eqn:E; simpl; rewrite E; [reflexivity|].
    now rewrite IH.
Qed.

Lemma removeAttrList_set (attrs : list Attribute) (k v : string) :
  removeAttrList (setAttrList attrs k v) k = removeAttrList attrs k.
Proof.
  induction attrs as [|a rest IH]; simpl.
  - now rewrite String.eqb_refl.
  - destruct (String.eqb (Key a) k) eqn:E; simpl; rewrite E; simpl; [reflexivity|].
    now rewrite IH.
Qed.

Lemma setAttrList_get (attrs : list Attribute) (k : string) :
  existsb (fun a => String.eqb (Key a) k) attrs = true ->
  setAttrList attrs k (getAttrList attrs k) = attrs.
Proof.
  induction attrs as [|a rest IH]; simpl; [discriminate|].
  destruct (String.eqb (Key a) k) eqn:E; simpl.
  - intros _. now destruct a.
  - intros H. now rewrite IH.
Qed.

(** X1. Setting a key twice keeps the last value only, and removing a
    key after setting it is removing it from the original node.  Setting
    a present key to the value [GetAttr] reads gives the node back.
    [SetAttr] and [RemoveAttr] change nothing but the attribute list. *)
Theorem SetAttr_overwrite_and_remove (n : Node) (k v1 v2 : string) :
  SetAttr (SetAttr n k v1) k v2 = SetAttr n k v2
  /\ RemoveAttr (SetAttr n k v1) k = RemoveAttr n k
  /\ (existsb (fun a => String.eqb (Key a) k) (Attr n) = true ->
      SetAttr n k (GetAttr n k) = n)
  /\ (NType (SetAttr n k v1), Data (SetAttr n k v1), Children (SetAttr n k v1))
     = (NType n, Data n, Children n)
  /\ (NType (RemoveAttr n k), Data (RemoveAttr n k), Children (RemoveAttr n k))
     = (NType n, Data n, Children n).
Proof.
  unfold SetAttr, RemoveAttr, GetAttr, withAttr. simpl. repeat split.
  - now rewrite setAttrList_overwrite.
  - now rewrite removeAttrList_set.
  - intros H. rewrite (setAttrList_get _ _ H). now destruct n.
Qed.

Lemma SetAttr_overwrite_and_remove_witness :
  let n := elem "a" [attr "href" "/x"; attr "title" "t"] [text "y"] in
  SetAttr (SetAttr n "title" "u") "title" "w" = SetAttr n "title" "w"
  /\ SetAttr n "href" (GetAttr n "href") = n.
Proof.
  intros n.
  destruct (SetAttr_overwrite_and_remove n "title" "u" "w") as (H1 & _).
  destruct (SetAttr_overwrite_and_remove n "href" "" "") as (_ & _ & H3 & _).
  split; [exact H1 | apply H3; reflexivity].
Defined.

Lemma removeAttrList_idem (attrs : list Attribute) (k : string) :
  removeAttrList (removeAttrList attrs k) k = removeAttrList attrs k.
Proof.
  induction attrs as [|a rest IH]; simpl; [reflexivity|].
  destruct (String.eqb (Key a) k) eqn:E; simpl; [exact IH|].
  rewrite E. simpl. now rewrite IH.
Qed.

Lemma removeAttrList_comm (attrs : list Attribute) (k1 k2 : string) :
  removeAttrList (removeAttrList attrs k1) k2
  = removeAttrList (removeAttrList attrs k2) k1.
Proof.
  induction attrs as [|a rest IH]; simpl; [reflexivity|].
  destruct (String.eqb (Key a) k1) eqn:E1, (String.eqb (Key a) k2) eqn:E2;
    simpl; rewrite ?E1, ?E2; simpl; now rewrite ?IH.
Qed.

Lemma getAttrList_remove_other (attrs : list Attribute) (k k' : string) :
  String.eqb k k' = false ->
  getAttrList (removeAttrList attrs k) k' = getAttrList attrs k'.
Proof.
  intros Hne. induction attrs as [|a rest IH]; simpl; [reflexivity|].
  destruct (String.eqb (Key a) k) eqn:E; simpl.
  - apply String.eqb_eq in E. rewrite E, Hne. exact IH.
  - now rewrite IH.
Qed.

Lemma removeAttrList_absent (attrs : list Attribute) (k : string) :
  existsb (fun a => String.eqb (Key a) k) attrs = false ->
  removeAttrList attrs k = attrs.
Proof.
  induction attrs as [|a rest IH]; simpl; [reflexivity|].
  destruct (String.eqb (Key a) k); simpl; [discriminate|].
  intros H. now rewrite IH.
Qed.

Lemma setAttrList_absent (attrs : list Attribute) (k v : string) :
  existsb (fun a => String.eqb (Key a) k) attrs = false ->
  setAttrList attrs k v = attrs ++ [mkAttr "" k v].
Proof.
  induction attrs as [|a rest IH]; simpl; [reflexivity|].
  destruct (String.eqb (Key a) k); simpl; [discriminate|].
  intros H. now rewrite IH.
Qed.

Lemma removeAttrList_no_key (attrs : list Attribute) (k : string) :
  existsb (fun a => String.eqb (Key a) k) (removeAttrList attrs k) = false.
Proof.
  induction attrs as [|a rest IH]; simpl; [reflexivity|].
  destruct (String.eqb (Key a) k) eqn:E; simpl; [exact IH|].
  now rewrite E.
Qed.

(** X2. [RemoveAttr] is idempotent, commutes with itself on any two
    keys, leaves the values read under other keys unchanged and leaves a
    node without the key as it is.  Removing a key and setting it again
    moves the attribute to the end of the list, with an empty
    namespace. *)
Theorem RemoveAttr_laws (n : Node) (k k' v : string) :
  RemoveAttr (RemoveAttr n k) k = RemoveAttr n k
  /\ RemoveAttr (RemoveAttr n k) k' = RemoveAttr (RemoveAttr n k') k
  /\ (String.eqb k k' = false -> GetAttr (RemoveAttr n k) k' = GetAttr n k')
  /\ (existsb (fun a => String.eqb (Key a) k) (Attr n) = false -> RemoveAttr n k = n)
  /\ Attr (SetAttr (RemoveAttr n k) k v) = Attr (RemoveAttr n k) ++ [mkAttr "" k v].
Proof.
  unfold SetAttr, RemoveAttr, GetAttr, withAttr. simpl. repeat split.
  - now rewrite removeAttrList_idem.
  - now rewrite removeAttrList_comm.
  - apply getAttrList_remove_other.
  - intros H. rewrite (removeAttrList_absent _ _ H). now destruct n.
  - apply setAttrList_absent, removeAttrList_no_key.
Qed.

Lemma RemoveAttr_laws_witness :
  let n := elem "a" [mkAttr "xlink" "href" "/x"; attr "title" "t"] [] in
  GetAttr (RemoveAttr n "href") "title" = "t"
  /\ RemoveAttr n "rel" = n
  /\ Attr (SetAttr (RemoveAttr n "href") "href" "/y")
     = [attr "title" "t"; attr "href" "/y"].
Proof.
  intros n.
  destruct (RemoveAttr_laws n "href" "title" "/y") as (_ & _ & H3 & _ & H5).
  destruct (RemoveAttr_laws n "rel" "" "") as (_ & _ & _ & H4 & _).
  split; [apply H3; reflexivity|]. split; [apply H4; reflexivity | exact H5].
Defined.

(** ** Where the walk starts *)

Lemma find_app_first {A : Type} (f : A -> bool) (l1 l2 : list A) :
  List.find f (l1 ++ l2) =
  match List.find f l1 with
  | Some x => Some x
  | None => List.find f l2
  end.
Proof.
  induction l1 as [|x l1 IH]; simpl; [reflexivity|].
  destruct (f x); [reflexivity | exact IH].
Qed.

Lemma findBody_find (n : Node) : findBody n = List.find isBody (nodesOf n).
Proof.
  induction n as [t d a cs IH] using Node_forall_ind.
  change (findBody (mkNode t d a cs)) with
    (if isBody (mkNode t d a cs) then Some (mkNode t d a cs)
     else (fix firstIn (cs : list Node) : option Node :=
             match cs with
             | [] => None
             | c :: rest =>
                 match findBody c with
                 | Some r => Some r
                 | None => firstIn rest
                 end
             end) cs).
  change (nodesOf (mkNode t d a cs)) with (mkNode t d a cs :: flat_map nodesOf cs).
  cbn [List.find]. destruct (isBody (mkNode t d a cs)); [reflexivity|].
  induction IH as [|c rest Hc _ IHrest]; [reflexivity|].
  cbn [flat_map]. rewrite find_app_first, <- Hc.
  destruct (findBody c); [reflexivity | exact IHrest].
Qed.

(** X3. [findBody] returns the first element named body in document
    order: the node it returns is such an element of the tree and no node
    before it is one; it returns nothing exactly when the tree holds no
    such element. *)
Theorem findBody_first_body (doc : Node) :
  findBody doc = List.find isBody (nodesOf doc)
  /\ (forall b, findBody doc = Some b ->
        NType b = ElementNode /\ Data b = "body"
        /\ exists before after,
             nodesOf doc = before ++ b :: after
             /\ forall m, In m before -> isBody m = false)
  /\ (findBody doc = None <-> forall m, In m (nodesOf doc) -> isBody m = false).
Proof.
  split; [apply findBody_find|]. rewrite findBody_find. split.
  - intros b Hb.
    assert (Hsplit : forall l, List.find isBody l = Some b ->
              isBody b = true /\ exists before after,
                l = before ++ b :: after /\ forall m, In m before -> isBody m = false).
    { induction l as [|x l IHl]; simpl; [discriminate|].
      destruct (isBody x) eqn:Ex.
      - intros H. injection H as ->. split; [exact Ex|].
        exists [], l. split; [reflexivity | intros m []].
      - intros H. destruct (IHl H) as (Hb' & before & after & -> & Hbefore).
        split; [exact Hb'|]. exists (x :: before), after. split; [reflexivity|].
        intros m [<- | Hm]; [exact Ex | now apply Hbefore]. }
    destruct (Hsplit _ Hb) as (Hbody & Hrest).
    unfold isBody, isType in Hbody. apply andb_true_iff in Hbody as [Hty Hname].
    apply String.eqb_eq in Hname.
    split; [now destruct (NType b)|]. split; [exact Hname | exact Hrest].
  - split.
    + intros Hnone m Hm. destruct (isBody m) eqn:Em; [|reflexivity].
      pose proof (find_none _ _ Hnone m Hm) as H. congruence.
    + intros Hall. destruct (List.find isBody (nodesOf doc)) as [b|] eqn:Hf; [|reflexivity].
      apply find_some in Hf as [Hin Hb]. rewrite (Hall b Hin) in Hb. discriminate.
Qed.

Lemma findBody_first_body_witness :
  findBody (document [text "x"]) = Some (elem "body" [] [text "x"])
  /\ findBody (text "x") = None.
Proof.
  split; [reflexivity|].
  apply (proj2 (proj2 (findBody_first_body (text "x")))).
  intros m [<- | []]. reflexivity.
Defined.

(** ** What the attribute filter keeps *)

Lemma inList_In (attr : string) (l : list string) :
  inList attr l = true <-> In attr l.
Proof.
  unfold inList. rewrite existsb_exists. split.
  - intros (x & Hx & He). apply String.eqb_eq in He. now subst.
  - intros H. exists attr. split; [exact H | apply String.eqb_refl].
Qed.

Lemma attrAllowed_spec (attr tag : string) (al : gmap string (list string)) :
  attrAllowed attr tag al = true <->
  (exists l, al !! "*" = Some l /\ In attr l)
  \/ (exists l, al !! tag = Some l /\ In attr l).
Proof.
  unfold attrAllowed. split.
  - destruct (al !! "*") as [l|] eqn:Hstar.
    + destruct (inList attr l) eqn:Hl.
      * intros _. left. exists l. split; [reflexivity | now apply inList_In].
      * destruct (al !! tag) as [l'|]; [|discriminate].
        intros H. right. exists l'. split; [reflexivity | now apply inList_In].
    + destruct (al !! tag) as [l'|]; [|discriminate].
      intros H. right. exists l'. split; [reflexivity | now apply inList_In].
  - intros [(l & Hl & Hin) | (l & Hl & Hin)].
    + rewrite Hl. apply inList_In in Hin. now rewrite Hin.
    + destruct (match al !! "*" with Some l0 => inList attr l0 | None => false end);
        [reflexivity|].
      rewrite Hl. now apply inList_In.
Qed.

Section FilterLaws.

Variable html_Parse : string -> option Node.
Variable url_Parse : string -> option URL.

#[local] Abbreviation filterAttrs' := (filterAttrs html_Parse url_Parse).
#[local] Abbreviation schemeAllowed' := (schemeAllowed html_Parse url_Parse).

Lemma filterAttrs_app (l1 l2 : list Attribute) (tag : string)
    (al : gmap string (list string)) (schemes : gset string) :
  filterAttrs' (l1 ++ l2) tag al schemes
  = filterAttrs' l1 tag al schemes ++ filterAttrs' l2 tag al schemes.
Proof.
  induction l1 as [|a l1 IH]; simpl; [reflexivity|].
  destruct (negb _); [exact IH|]. destruct (_ && _); [exact IH|].
  simpl. now rewrite IH.
Qed.

(** X4. [filterAttrs] keeps exactly the attributes whose key is listed
    under the wildcard key or under the tag and, for href, src and
    action, whose value the scheme validator accepts.  The kept
    attributes are in their original order, each attribute is judged on
    its own (the filter distributes over concatenation), and filtering
    twice is filtering once. *)
Theorem filterAttrs_keeps_exactly (attrs : list Attribute) (tag : string)
    (al : gmap string (list string)) (schemes : gset string) :
  (forall a,
      In a (filterAttrs' attrs tag al schemes) <->
      In a attrs
      /\ ((exists l, al !! "*" = Some l /\ In (Key a) l)
          \/ (exists l, al !! tag = Some l /\ In (Key a) l))
      /\ (isURLKey (Key a) = true -> schemeAllowed' (Val a) schemes = true))
  /\ filterAttrs' attrs tag al schemes `sublist_of` attrs
  /\ (forall more, filterAttrs' (attrs ++ more) tag al schemes
                   = filterAttrs' attrs tag al schemes
                     ++ filterAttrs' more tag al schemes)
  /\ filterAttrs' (filterAttrs' attrs tag al schemes) tag al schemes
     = filterAttrs' attrs tag al schemes.
Proof.
  split; [|split; [|split]].
  - intros a. rewrite filterAttrs_In, attrAllowed_spec. reflexivity.
  - apply filterAttrs_sublist.
  - intros more. apply filterAttrs_app.
  - apply filterAttrs_idem.
Qed.

Lemma filterAttrs_no_entry (attrs : list Attribute) (tag : string)
    (al : gmap string (list string)) (schemes : gset string) :
  al !! "*" = None -> al !! tag = None ->
  filterAttrs' attrs tag al schemes = [].
Proof.
  intros Hstar Htag. induction attrs as [|a rest IH]; simpl; [reflexivity|].
  unfold attrAllowed. rewrite Hstar, Htag. exact IH.
Qed.

End FilterLaws.

Lemma filterAttrs_keeps_exactly_witness :
  filterAttrs recordedParse recordedURL
    [attr "onclick" "x()"; attr "href" "javascript:alert(1)"; attr "title" "t";
     attr "href" "/about"; attr "class" "c"]
    "a" (AllowedAttributes DefaultPolicy) (sliceToSet (AllowedSchemes DefaultPolicy))
  = [attr "title" "t"; attr "href" "/about"; attr "class" "c"]
  /\ In (attr "href" "/about")
       (filterAttrs recordedParse recordedURL
          [attr "onclick" "x()"; attr "href" "/about"]
          "a" (AllowedAttributes DefaultPolicy) (sliceToSet (AllowedSchemes DefaultPolicy))).
Proof.
  split; [vm_compute; reflexivity|].
  apply (proj1 (filterAttrs_keeps_exactly recordedParse recordedURL _ _ _ _)).
  split; [right; now left|]. split.
  - right. exists ["href"; "title"; "target"; "rel"]. split; [reflexivity | now left].
  - intros _. vm_compute. reflexivity.
Defined.

(** ** What is written as a live tag *)

Section LiveTags.

Variable html_Parse : string -> option Node.
Variable url_Parse : string -> option URL.
Variable p : Policy.
Variable allowedTags : gset string.
Variable allowedSchemes : gset string.

#[local] Abbreviation trace' := (trace html_Parse url_Parse p allowedTags allowedSchemes).
#[local] Abbreviation filtered := (fun n => withAttr n
  (filterAttrs html_Parse url_Parse (Attr n) (ToLower (Data n))
     (AllowedAttributes p) allowedSchemes)).

(** A property of the open tag of every allowed element holds of every
    open tag in a trace. *)
Lemma trace_opens (P : string -> list Attribute -> bool -> Prop) :
  (forall n d m,
      NType n = ElementNode ->
      allowed p allowedTags (ToLower (Data n)) d = true ->
      runTransformers (Transformers p) (filtered n) = Some m ->
      P (ToLower (Data n)) (Attr m) (isVoidElement (ToLower (Data n)))) ->
  forall fuel n d evs,
    trace' fuel n d = Some evs ->
    forall tag attrs void, In (EvOpen tag attrs void) evs -> P tag attrs void.
Proof.
  intros HP. induction fuel as [|fuel IH]; intros n d evs Htr tag attrs void Hev;
    [discriminate|].
  assert (Hch : forall d' es,
            traceChildren (fun c => trace' fuel c d') (Children n) = Some es ->
            In (EvOpen tag attrs void) es -> P tag attrs void).
  { intros d' es Hes Hin.
    assert (HF : Forall (fun e => e = EvOpen tag attrs void -> P tag attrs void) es).
    { eapply traceChildren_Forall; [|exact Hes]. intros c e _ He.
      apply List.Forall_forall. intros x Hx ->. now apply (IH c d' e He). }
    rewrite List.Forall_forall in HF. now apply (HF _ Hin). }
  assert (Hkids : forall m d' es,
            traceChildren (fun c => trace' fuel c d') (Children m) = Some es ->
            In (EvOpen tag attrs void) es -> P tag attrs void).
  { intros m d' es Hes Hin.
    assert (HF : Forall (fun e => e = EvOpen tag attrs void -> P tag attrs void) es).
    { eapply traceChildren_Forall; [|exact Hes]. intros c e _ He.
      apply List.Forall_forall. intros x Hx ->. now apply (IH c d' e He). }
    rewrite List.Forall_forall in HF. now apply (HF _ Hin). }
  destruct (NType n) eqn:Hty.
  - simpl in Htr; rewrite Hty in Htr. now apply (Hch d evs).
  - simpl in Htr; rewrite Hty in Htr. injection Htr as <-.
    destruct Hev as [Hev | []]; discriminate.
  - simpl in Htr; rewrite Hty in Htr. now apply (Hch d evs).
  - destruct (allowed p allowedTags (ToLower (Data n)) d) eqn:Hal.
    + rewrite trace_allowed in Htr by assumption.
      destruct (runTransformers _ _) as [m|] eqn:Hrun;
        [|injection Htr as <-; destruct Hev].
      cbv zeta in Htr. destruct (isVoidElement (ToLower (Data n))) eqn:Hvoid.
      * injection Htr as <-. destruct Hev as [Hev | []]. injection Hev as <- <- <-.
        rewrite <- Hvoid. now apply (HP n d m).
      * destruct (traceChildren _ _) as [es|] eqn:Hes; [|discriminate].
        injection Htr as <-. destruct Hev as [Hev | Hev].
        -- injection Hev as <- <- <-. rewrite <- Hvoid. now apply (HP n d m).
        -- apply in_app_or in Hev as [Hev | [Hev | []]]; [|discriminate].
           now apply (Hkids m (d + 1) es).
    + rewrite trace_disallowed in Htr by assumption.
      destruct (StripDisallowed p); [injection Htr as <-; destruct Hev|].
      destruct (traceChildren _ _) as [es|] eqn:Hes; [|discriminate].
      injection Htr as <-. destruct Hev as [Hev | Hev]; [discriminate|].
      apply in_app_or in Hev as [Hev | Hev]; [now apply (Hch (d + 1) es)|].
      destruct (negb _); [destruct Hev as [Hev | []]; discriminate | destruct Hev].
  - simpl in Htr; rewrite Hty in Htr. injection Htr as <-. destruct Hev.
  - simpl in Htr; rewrite Hty in Htr. injection Htr as <-. destruct Hev.
  - simpl in Htr; rewrite Hty in Htr. now apply (Hch d evs).
Qed.



End LiveTags.



(** ** The live tags are nested, and no deeper than the limit *)

Lemma traceChildren_app_inv (Q : list Event -> Prop) (f : Node -> option (list Event))
    (cs : list Node) (evs : list Event) :
  Q [] ->
  (forall e es, Q es -> (exists c, In c cs /\ f c = Some e) -> Q (e ++ es)) ->
  traceChildren f cs = Some evs -> Q evs.
Proof.
  intros Hnil Hstep. revert evs.
  induction cs as [|c rest IH]; intros evs Htr; simpl in Htr.
  - now injection Htr as <-.
  - destruct (f c) as [e|] eqn:Ec; [|discriminate].
    destruct (traceChildren f rest) as [es|] eqn:Er; [|discriminate].
    injection Htr as <-. apply Hstep.
    + apply IH; [|reflexivity]. intros e' es' Hq (c' & Hin & Hc').
      apply Hstep; [exact Hq|]. exists c'. split; [now right | exact Hc'].
    + exists c. split; [now left | exact Ec].
Qed.

Section Nesting.

Variable html_Parse : string -> option Node.
Variable url_Parse : string -> option URL.
Variable p : Policy.
Variable allowedTags : gset string.
Variable allowedSchemes : gset string.

#[local] Abbreviation trace' := (trace html_Parse url_Parse p allowedTags allowedSchemes).

Lemma wellNested_trace (fuel : nat) :
  forall n d evs,
    trace' fuel n d = Some evs ->
    forall stack rest, wellNested stack (evs ++ rest) = wellNested stack rest.
Proof.
  induction fuel as [|fuel IH]; intros n d evs Htr stack rest; [discriminate|].
  assert (Hch : forall m d' es,
            traceChildren (fun c => trace' fuel c d') (Children m) = Some es ->
            forall stack rest, wellNested stack (es ++ rest) = wellNested stack rest).
  { intros m d' es Hes.
    apply (traceChildren_app_inv
             (fun es => forall stack rest,
                  wellNested stack (es ++ rest) = wellNested stack rest)
             (fun c => trace' fuel c d') (Children m) es); [reflexivity| |exact Hes].
    intros e es' Hq (c & _ & Hc) st r. rewrite <- app_assoc.
    rewrite (IH c d' e Hc). apply Hq. }
  destruct (NType n) eqn:Hty.
  - simpl in Htr; rewrite Hty in Htr. now apply (Hch n d).
  - simpl in Htr; rewrite Hty in Htr. now injection Htr as <-.
  - simpl in Htr; rewrite Hty in Htr. now apply (Hch n d).
  - destruct (allowed p allowedTags (ToLower (Data n)) d) eqn:Hal.
    + rewrite trace_allowed in Htr by assumption.
      destruct (runTransformers _ _) as [m|]; [|now injection Htr as <-].
      cbv zeta in Htr. destruct (isVoidElement _).
      * now injection Htr as <-.
      * destruct (traceChildren _ _) as [es|] eqn:Hes; [|discriminate].
        injection Htr as <-. cbn [app wellNested]. rewrite <- app_assoc.
        rewrite (Hch m (d + 1) es Hes). cbn [app wellNested].
        now rewrite String.eqb_refl.
    + rewrite trace_disallowed in Htr by assumption.
      destruct (StripDisallowed p); [now injection Htr as <-|].
      destruct (traceChildren _ _) as [es|] eqn:Hes; [|discriminate].
      injection Htr as <-. cbn [app wellNested]. rewrite <- app_assoc.
      rewrite (Hch n (d + 1) es Hes). now destruct (negb _).
  - simpl in Htr; rewrite Hty in Htr. now injection Htr as <-.
  - simpl in Htr; rewrite Hty in Htr. now injection Htr as <-.
  - simpl in Htr; rewrite Hty in Htr. now apply (Hch n d).
Qed.

(** X7. Whatever the policy, the live tags a walk writes are properly
    nested: every close tag closes the innermost open tag of the same
    name, self-closing tags have no close tag, and no tag is left
    open. *)
Theorem trace_well_nested (fuel : nat) (n : Node) (d : Z) (evs : list Event) :
  trace' fuel n d = Some evs ->
  wellNested [] evs = true
  /\ forall stack rest, wellNested stack (evs ++ rest) = wellNested stack rest.
Proof.
  intros Htr. split; [|now apply (wellNested_trace fuel n d)].
  rewrite <- (app_nil_r evs). now rewrite (wellNested_trace fuel n d evs Htr).
Qed.

Lemma peak_ge (evs : list Event) : forall cur, (cur <= peak cur evs)%nat.
Proof.
  induction evs as [|e evs IH]; intros cur; simpl; [lia|].
  destruct e as [w|tag attrs [|]|tag|lit]; try apply IH; lia.
Qed.

Lemma peak_trace (fuel : nat) :
  0 < MaxDepth p ->
  forall n d evs,
    trace' fuel n d = Some evs ->
    forall cur rest bound,
      (cur + Z.to_nat (MaxDepth p - d + 1) <= bound)%nat ->
      (peak cur rest <= bound)%nat ->
      (peak cur (evs ++ rest) <= bound)%nat.
Proof.
  intros Hmax.
  induction fuel as [|fuel IH]; intros n d evs Htr cur rest bound Hb Hrest; [discriminate|].
  assert (Hch : forall m d' es,
            traceChildren (fun c => trace' fuel c d') (Children m) = Some es ->
            forall cur rest bound,
              (cur + Z.to_nat (MaxDepth p - d' + 1) <= bound)%nat ->
              (peak cur rest <= bound)%nat ->
              (peak cur (es ++ rest) <= bound)%nat).
  { intros m d' es Hes.
    apply (traceChildren_app_inv
             (fun es => forall cur rest bound,
                  (cur + Z.to_nat (MaxDepth p - d' + 1) <= bound)%nat ->
                  (peak cur rest <= bound)%nat ->
                  (peak cur (es ++ rest) <= bound)%nat)
             (fun c => trace' fuel c d') (Children m) es);
      [intros ? ? ? _ H; exact H| |exact Hes].
    intros e es' Hq (c & _ & Hc) c0 r b Hb0 Hr. rewrite <- app_assoc.
    apply (IH c d' e Hc); [exact Hb0|]. now apply Hq. }
  destruct (NType n) eqn:Hty.
  - simpl in Htr; rewrite Hty in Htr. now apply (Hch n d evs).
  - simpl in Htr; rewrite Hty in Htr. now injection Htr as <-.
  - simpl in Htr; rewrite Hty in Htr. now apply (Hch n d evs).
  - destruct (allowed p allowedTags (ToLower (Data n)) d) eqn:Hal.
    + assert (Hd : d <= MaxDepth p).
      { unfold allowed, tooDeep in Hal. apply andb_true_iff in Hal as [_ Hdeep].
        apply negb_true_iff, andb_false_iff in Hdeep as [H | H]; lia. }
      rewrite trace_allowed in Htr by assumption.
      destruct (runTransformers _ _) as [m|]; [|now injection Htr as <-].
      cbv zeta in Htr. destruct (isVoidElement _).
      * now injection Htr as <-.
      * destruct (traceChildren _ _) as [es|] eqn:Hes; [|discriminate].
        injection Htr as <-. cbn [app peak]. rewrite <- app_assoc.
        apply Nat.max_lub; [lia|].
        apply (Hch m (d + 1) es Hes); [lia|].
        cbn [app peak Nat.pred]. apply Nat.max_lub; [lia | exact Hrest].
    + rewrite trace_disallowed in Htr by assumption.
      destruct (StripDisallowed p); [now injection Htr as <-|].
      destruct (traceChildren _ _) as [es|] eqn:Hes; [|discriminate].
      injection Htr as <-. cbn [app peak]. rewrite <- app_assoc.
      apply (Hch n (d + 1) es Hes); [lia|].
      now destruct (negb _).
  - simpl in Htr; rewrite Hty in Htr. now injection Htr as <-.
  - simpl in Htr; rewrite Hty in Htr. now injection Htr as <-.
  - simpl in Htr; rewrite Hty in Htr. now apply (Hch n d evs).
Qed.


End Nesting.

Lemma trace_well_nested_witness :
  wellNested []
    [EvOpen "p" [] false; EvOpen "br" [] true; EvOpen "b" [] false; EvText "x";
     EvClose "b"; EvClose "p"] = true.
Proof.
  apply (trace_well_nested recordedParse recordedURL DefaultPolicy
           (sliceToSet (AllowedTags DefaultPolicy))
           (sliceToSet (AllowedSchemes DefaultPolicy)) 3
           (elem "p" [] [elem "br" [] []; elem "b" [] [text "x"]]) 1).
  vm_compute. reflexivity.
Defined.


(** ** Text and escaped tags are inert *)

Lemma noMarkup_app (a b : string) :
  noMarkup (a +:+ b) = noMarkup a && noMarkup b.
Proof.
  induction a as [|c a IH]; simpl; [reflexivity|].
  rewrite IH. now rewrite andb_assoc.
Qed.

Lemma EscapeString_noMarkup (s : string) : noMarkup (EscapeString s) = true.
Proof.
  induction s as [|c s IH]; simpl; [reflexivity|].
  destruct (isByte c 38) eqn:E38; [exact IH|].
  destruct (isByte c 39) eqn:E39; [exact IH|].
  destruct (isByte c 60) eqn:E60; [exact IH|].
  destruct (isByte c 62) eqn:E62; [exact IH|].
  destruct (isByte c 34) eqn:E34; [exact IH|].
  destruct (isByte c 13) eqn:E13; [exact IH|].
  cbn [noMarkup]. now rewrite E60, E62, E34, E39, IH.
Qed.

Section Inert.

Variable html_Parse : string -> option Node.
Variable url_Parse : string -> option URL.
Variable p : Policy.
Variable allowedTags : gset string.
Variable allowedSchemes : gset string.

#[local] Abbreviation trace' := (trace html_Parse url_Parse p allowedTags allowedSchemes).

(** A property of every event a node can write holds of every event of a
    trace. *)
Lemma trace_forall (P : Event -> Prop) :
  (forall t, P (EvText (writeText p "" t))) ->
  (forall lit, P (EvEscaped lit)) ->
  (forall tag attrs void, P (EvOpen tag attrs void)) ->
  (forall tag, P (EvClose tag)) ->
  forall fuel n d evs, trace' fuel n d = Some evs -> Forall P evs.
Proof.
  intros Ptext Pesc Popen Pclose.
  induction fuel as [|fuel IH]; intros n d evs Htr; [discriminate|].
  assert (Hch : forall m d' es,
            traceChildren (fun c => trace' fuel c d') (Children m) = Some es ->
            Forall P es).
  { intros m d' es Hes. eapply traceChildren_Forall; [|exact Hes].
    intros c e _ He. now apply (IH c d'). }
  destruct (NType n) eqn:Hty.
  - simpl in Htr; rewrite Hty in Htr. now apply (Hch n d).
  - simpl in Htr; rewrite Hty in Htr. injection Htr as <-. repeat constructor.
    apply Ptext.
  - simpl in Htr; rewrite Hty in Htr. now apply (Hch n d).
  - destruct (allowed p allowedTags (ToLower (Data n)) d) eqn:Hal.
    + rewrite trace_allowed in Htr by assumption.
      destruct (runTransformers _ _) as [m|]; [|injection Htr as <-; constructor].
      cbv zeta in Htr. destruct (isVoidElement _).
      * injection Htr as <-. repeat constructor. apply Popen.
      * destruct (traceChildren _ _) as [es|] eqn:Hes; [|discriminate].
        injection Htr as <-. constructor; [apply Popen|].
        apply Forall_app. split; [now apply (Hch m (d + 1))|].
        repeat constructor. apply Pclose.
    + rewrite trace_disallowed in Htr by assumption.
      destruct (StripDisallowed p); [injection Htr as <-; constructor|].
      destruct (traceChildren _ _) as [es|] eqn:Hes; [|discriminate].
      injection Htr as <-. constructor; [apply Pesc|].
      apply Forall_app. split; [now apply (Hch n (d + 1))|].
      destruct (negb _); repeat constructor. apply Pesc.
  - simpl in Htr; rewrite Hty in Htr. injection Htr as <-. constructor.
  - simpl in Htr; rewrite Hty in Htr. injection Htr as <-. constructor.
  - simpl in Htr; rewrite Hty in Htr. now apply (Hch n d).
Qed.

(** X9. With linkify off, whatever a walk writes for a text node or for
    the tags of a disallowed element holds no angle bracket and no quote:
    the only markup in the output is the live tags of allowed
    elements. *)
Theorem text_and_escaped_tags_inert (fuel : nat) (n : Node) (d : Z) (evs : list Event) :
  Linkify p = false ->
  trace' fuel n d = Some evs ->
  forall e, In e evs ->
    match e with
    | EvText _ | EvEscaped _ => noMarkup (writeEvent "" e) = true
    | EvOpen _ _ _ | EvClose _ => True
    end.
Proof.
  intros Hlink Htr.
  apply List.Forall_forall.
  apply (trace_forall
           (fun e => match e with
                     | EvText _ | EvEscaped _ => noMarkup (writeEvent "" e) = true
                     | EvOpen _ _ _ | EvClose _ => True
                     end)) with fuel n d; try exact Htr; try (intros; exact I).
  - intros t. unfold writeText. rewrite Hlink. simpl. apply EscapeString_noMarkup.
  - intros lit. simpl. apply EscapeString_noMarkup.
Qed.

End Inert.

Lemma text_and_escaped_tags_inert_witness :
  noMarkup (writeEvent "" (EvEscaped "<script>")) = true
  /\ noMarkup (writeEvent "" (EvText "alert(&#39;xss&#39;)")) = true.
Proof.
  pose proof (text_and_escaped_tags_inert recordedParse recordedURL DefaultPolicy
                (sliceToSet (AllowedTags DefaultPolicy))
                (sliceToSet (AllowedSchemes DefaultPolicy))
                2 (elem "script" [] [text "alert('xss')"]) 1
                [EvEscaped "<script>"; EvText "alert(&#39;xss&#39;)"; EvEscaped "</script>"]
                eq_refl ltac:(vm_compute; reflexivity)) as H.
  split.
  - apply (H (EvEscaped "<script>")). now left.
  - apply (H (EvText "alert(&#39;xss&#39;)")). right. now left.
Defined.

(** ** Depth, buffer and fuel *)

Lemma traceChildren_mono (f g : Node -> option (list Event)) (cs : list Node)
    (evs : list Event) :
  (forall c e, In c cs -> f c = Some e -> g c = Some e) ->
  traceChildren f cs = Some evs -> traceChildren g cs = Some evs.
Proof.
  revert evs. induction cs as [|c rest IH]; intros evs Hfg Htr; simpl in *; [exact Htr|].
  destruct (f c) as [e|] eqn:Ec; [|discriminate].
  rewrite (Hfg c e (or_introl eq_refl) Ec).
  destruct (traceChildren f rest) as [es|] eqn:Er; [|discriminate].
  rewrite (IH es); [exact Htr| |reflexivity].
  intros c' e' Hin. apply Hfg. now right.
Qed.

Lemma height_in_tree (n m : Node) : In m (nodesOf n) -> (height m <= height n)%nat.
Proof.
  induction n as [t d a cs IH] using Node_forall_ind. intros [<- | Hin]; [lia|].
  cbn [Children] in Hin. apply in_flat_map in Hin as (c & Hc & Hm).
  rewrite List.Forall_forall in IH. specialize (IH c Hc Hm).
  pose proof (height_child (mkNode t d a cs) c Hc). lia.
Qed.

Section WalkLaws.

Variable html_Parse : string -> option Node.
Variable url_Parse : string -> option URL.
Variable p : Policy.
Variable allowedTags : gset string.
Variable allowedSchemes : gset string.

#[local] Abbreviation walk' := (walk html_Parse url_Parse p allowedTags allowedSchemes).
#[local] Abbreviation trace' := (trace html_Parse url_Parse p allowedTags allowedSchemes).

Lemma allowed_without_limit (tag : string) (d : Z) :
  MaxDepth p <= 0 -> allowed p allowedTags tag d = inSet allowedTags tag.
Proof.
  intros Hmax. unfold allowed, tooDeep.
  replace (0 <? MaxDepth p) with false by (symmetry; apply Z.ltb_ge; lia).
  simpl. apply andb_true_r.
Qed.

(** X10. A [MaxDepth] of zero, or a negative one, switches the depth
    check off: what a walk writes does not depend on the depth it starts
    at. *)
Theorem depth_ignored_without_limit (fuel : nat) (n : Node) (d d' : Z) (buf : string) :
  MaxDepth p <= 0 ->
  walk' fuel n d buf = walk' fuel n d' buf.
Proof.
  intros Hmax. revert n d d' buf.
  induction fuel as [|fuel IH]; intros n d d' buf; [reflexivity|].
  assert (Hch : forall m e e' b,
            forChildren (fun c b => walk' fuel c e b) (Children m) b
            = forChildren (fun c b => walk' fuel c e' b) (Children m) b).
  { intros m e e' b. apply forChildren_ext. intros c st _. apply IH. }
  destruct (NType n) eqn:Hty; try (simpl; rewrite Hty; solve [reflexivity | apply Hch]).
  destruct (inSet allowedTags (ToLower (Data n))) eqn:Hin.
  - rewrite !walk_allowed by (try assumption; now rewrite allowed_without_limit).
    destruct (runTransformers _ _) as [m|]; [|reflexivity].
    cbv zeta. destruct (isVoidElement _); [reflexivity|].
    now rewrite (Hch m (d + 1) (d' + 1)).
  - rewrite !walk_disallowed by (try assumption; now rewrite allowed_without_limit).
    destruct (StripDisallowed p); [reflexivity|].
    now rewrite (Hch n (d + 1) (d' + 1)).
Qed.

(** X11. A walk only appends: the buffer it returns is the buffer it was
    given followed by what the same walk writes into an empty buffer, so
    what is written for a node does not depend on what was written
    before it. *)
Theorem walk_only_appends (fuel : nat) (n : Node) (d : Z) (buf : string) :
  walk' fuel n d buf
  = match walk' fuel n d "" with
    | Some written => Some (buf +:+ written)
    | None => None
    end.
Proof.
  rewrite !walk_trace. destruct (trace' fuel n d) as [evs|]; [|reflexivity].
  simpl. now rewrite writeEvents_app.
Qed.

Lemma trace_more_fuel (fuel : nat) :
  forall n d evs, trace' fuel n d = Some evs -> trace' (S fuel) n d = Some evs.
Proof.
  induction fuel as [|fuel IH]; intros n d evs Htr; [discriminate|].
  assert (Hch : forall m e es,
            traceChildren (fun c => trace' fuel c e) (Children m) = Some es ->
            traceChildren (fun c => trace' (S fuel) c e) (Children m) = Some es).
  { intros m e es. apply traceChildren_mono. intros c ev _. apply IH. }
  destruct (NType n) eqn:Hty.
  - simpl in Htr |- *; rewrite Hty in Htr |- *. now apply Hch.
  - simpl in Htr |- *; rewrite Hty in Htr |- *. exact Htr.
  - simpl in Htr |- *; rewrite Hty in Htr |- *. now apply Hch.
  - destruct (allowed p allowedTags (ToLower (Data n)) d) eqn:Hal.
    + rewrite trace_allowed in Htr |- * by assumption.
      destruct (runTransformers _ _) as [m|]; [|exact Htr].
      cbv zeta in Htr |- *. destruct (isVoidElement _); [exact Htr|].
      destruct (traceChildren _ (Children m)) as [es|] eqn:Hes; [|discriminate].
      now rewrite (Hch m _ es Hes).
    + rewrite trace_disallowed in Htr |- * by assumption.
      destruct (StripDisallowed p); [exact Htr|].
      destruct (traceChildren _ (Children n)) as [es|] eqn:Hes; [|discriminate].
      now rewrite (Hch n _ es Hes).
  - simpl in Htr |- *; rewrite Hty in Htr |- *. exact Htr.
  - simpl in Htr |- *; rewrite Hty in Htr |- *. exact Htr.
  - simpl in Htr |- *; rewrite Hty in Htr |- *. now apply Hch.
Qed.

Lemma trace_fuel_le (fuel fuel' : nat) (n : Node) (d : Z) (evs : list Event) :
  (fuel <= fuel')%nat -> trace' fuel n d = Some evs -> trace' fuel' n d = Some evs.
Proof.
  induction 1 as [|k _ IH]; [easy|]. intros H. now apply trace_more_fuel, IH.
Qed.

End WalkLaws.

Lemma depth_ignored_without_limit_witness :
  walkWith DefaultPolicy 5 deepTree 1 "" = walkWith DefaultPolicy 5 deepTree 40 "".
Proof.
  apply (depth_ignored_without_limit recordedParse recordedURL DefaultPolicy).
  simpl. lia.
Defined.

(** X12. The walk of [SanitizeReader] returns whenever the policy has no
    transformers: a fuel of the height of the parsed document is enough.
    With any policy, once the fuel is enough for a result, more fuel
    gives the same result. *)
Theorem sanitize_returns (html_Parse : string -> option Node)
    (url_Parse : string -> option URL) (p : option Policy) (fuel : nat) (s : string) :
  (forall doc,
      html_Parse s = Some doc ->
      Transformers (match p with None => DefaultPolicy | Some q => q end) = [] ->
      (height doc <= fuel)%nat ->
      exists out, SanitizeReader html_Parse url_Parse fuel s p = Ok out)
  /\ (forall out fuel',
        (fuel <= fuel')%nat ->
        SanitizeReader html_Parse url_Parse fuel s p = Ok out ->
        SanitizeReader html_Parse url_Parse fuel' s p = Ok out).
Proof.
  split.
  - intros doc Hdoc Hts Hh.
    set (q := match p with None => DefaultPolicy | Some q => q end) in *.
    assert (Htr : exists evs, sanitizeTrace html_Parse url_Parse fuel s p = Some evs).
    { unfold sanitizeTrace. fold q. rewrite Hdoc.
      destruct (findBody doc) as [body|] eqn:Hbody.
      - apply traceChildren_total. intros c Hc. apply trace_total; [exact Hts|].
        rewrite findBody_find in Hbody. apply find_some in Hbody as [Hin _].
        pose proof (height_in_tree doc body Hin).
        pose proof (height_child body c Hc). lia.
      - now apply trace_total. }
    destruct Htr as [evs Hevs]. exists (writeEvents "" evs).
    now apply SanitizeReader_events.
  - intros out fuel' Hle Hout. rewrite SanitizeReader_trace in Hout |- *.
    destruct (html_Parse s) as [doc|] eqn:Hdoc; [|discriminate].
    destruct (sanitizeTrace html_Parse url_Parse fuel s p) as [evs|] eqn:Hevs;
      [|discriminate].
    assert (Hevs' : sanitizeTrace html_Parse url_Parse fuel' s p = Some evs).
    { unfold sanitizeTrace in Hevs |- *. rewrite Hdoc in Hevs |- *.
      destruct (findBody doc) as [body|].
      - eapply traceChildren_mono; [|exact Hevs]. intros c e _.
        now apply trace_fuel_le.
      - now apply (trace_fuel_le _ _ _ _ _ fuel fuel'). }
    now rewrite Hevs'.
Qed.

Lemma sanitize_returns_witness :
  exists out, sanitize 6 "<div><b>x</b></div>" (Some StrictPolicy) = Ok out.
Proof.
  apply (proj1 (sanitize_returns recordedParse recordedURL (Some StrictPolicy) 6
                  "<div><b>x</b></div>")
           (document [elem "div" [] [elem "b" [] [text "x"]]])
           eq_refl eq_refl).
  simpl. lia.
Defined.

(** ** The scheme validator *)

Lemma trimLeft_idem (s : string) : trimLeft (trimLeft s) = trimLeft s.
Proof.
  induction s as [|c r IH]; simpl; [reflexivity|].
  destruct (isSpace c) eqn:E; [exact IH|]. simpl. now rewrite E.
Qed.

Lemma trimRight_idem (s : string) : trimRight (trimRight s) = trimRight s.
Proof.
  induction s as [|c r IH]; simpl; [reflexivity|].
  destruct (trimRight r) as [|a t] eqn:Er.
  - destruct (isSpace c) eqn:E; simpl; [reflexivity | now rewrite E].
  - cbn [trimRight] in IH |- *. now rewrite IH.
Qed.

Lemma trimLeft_trimRight (s : string) : trimLeft (trimRight s) = trimRight (trimLeft s).
Proof.
  induction s as [|c r IH]; [reflexivity|].
  cbn [trimLeft trimRight]. destruct (isSpace c) eqn:E.
  - rewrite <- IH. destruct (trimRight r) as [|a t]; [reflexivity|].
    cbn [trimLeft]. now rewrite E.
  - cbn [trimRight]. destruct (trimRight r) as [|a t]; cbn [trimLeft]; now rewrite E.
Qed.

Lemma TrimSpace_idem (s : string) : TrimSpace (TrimSpace s) = TrimSpace s.
Proof.
  unfold TrimSpace.
  now rewrite trimLeft_trimRight, trimRight_idem, trimLeft_idem.
Qed.

Lemma lowerByte_not_upper (c : ascii) :
  N.leb 65 (byte (lowerByte c)) && N.leb (byte (lowerByte c)) 90 = false.
Proof. destruct c as [[] [] [] [] [] [] [] []]; reflexivity. Qed.

Lemma normalized_stripControl_ToLower (s : string) :
  normalized (stripControl (ToLower s)) = true.
Proof.
  induction s as [|c r IH]; simpl; [reflexivity|].
  destruct (N.ltb (byte (lowerByte c)) 32 || isByte (lowerByte c) 127) eqn:E; [exact IH|].
  cbn [normalized]. now rewrite E, lowerByte_not_upper, IH.
Qed.

Lemma ToLower_empty (s : string) : ToLower s = "" <-> s = "".
Proof. destruct s; simpl; split; congruence. Qed.

Section SchemeValidator.

Variable html_Parse : string -> option Node.
Variable url_Parse : string -> option URL.

#[local] Abbreviation schemeAllowed' := (schemeAllowed html_Parse url_Parse).
#[local] Abbreviation normalizeURL' := (normalizeURL html_Parse).


(** X14. What the scheme validator hands to [url.Parse] holds no control
    byte and no upper-case ASCII letter, so the validator depends on the
    URL parser only through its answers on such strings. *)
Theorem url_parser_sees_normalized (raw : string) (schemes : gset string)
    (other_Parse : string -> option URL) :
  normalized (normalizeURL' raw) = true
  /\ ((forall s, normalized s = true -> other_Parse s = url_Parse s) ->
      schemeAllowed html_Parse other_Parse raw schemes = schemeAllowed' raw schemes).
Proof.
  assert (Hn : normalized (normalizeURL' raw) = true)
    by apply normalized_stripControl_ToLower.
  split; [exact Hn|].
  intros Hagree. unfold schemeAllowed. now rewrite (Hagree _ Hn).
Qed.

End SchemeValidator.


Lemma url_parser_sees_normalized_witness :
  schemeAllowed recordedParse (fun s => if normalized s then recordedURL s else None)
    "https://example.com" (sliceToSet ["https"])
  = schemeAllowed recordedParse recordedURL "https://example.com" (sliceToSet ["https"]).
Proof.
  apply (proj2 (url_parser_sees_normalized recordedParse recordedURL
                  "https://example.com" (sliceToSet ["https"])
                  (fun s => if normalized s then recordedURL s else None))).
  intros s Hs. now rewrite Hs.
Defined.

(** ** The href decoder *)

Lemma last_cons_default {A : Type} (l : list A) (a d : A) :
  List.last (a :: l) d = List.last l a.
Proof.
  revert a d. induction l as [|b l IH]; intros a d; [reflexivity|].
  change (List.last (a :: b :: l) d) with (List.last (b :: l) d).
  now rewrite (IH b d), (IH b a).
Qed.

Lemma last_app_default {A : Type} (l l' : list A) (d : A) :
  List.last (l ++ l') d = List.last l' (List.last l d).
Proof.
  revert d. induction l as [|a l IH]; intros d; [reflexivity|].
  rewrite <- app_comm_cons, !last_cons_default. apply IH.
Qed.

Lemma decodeWalk_children (cs : list Node) (found : string) :
  Forall (fun c => forall f, decodeWalk c f = List.last (hrefsOf c) f) cs ->
  fold_left (fun f c => decodeWalk c f) cs found
  = List.last (flat_map hrefsOf cs) found.
Proof.
  intros Hall. revert found.
  induction Hall as [|c cs Hc _ IH]; intros found; [reflexivity|].
  cbn [fold_left flat_map]. now rewrite IH, Hc, last_app_default.
Qed.

Lemma decodeWalk_last (n : Node) (found : string) :
  decodeWalk n found = List.last (hrefsOf n) found.
Proof.
  revert found. induction n as [t d a cs IH] using Node_forall_ind. intros found.
  pose proof (decodeWalk_children cs found IH) as Hcs.
  destruct (isType (mkNode t d a cs) ElementNode && String.eqb d "a") eqn:Ea;
    simpl in Ea |- *; rewrite Ea.
  - destruct (List.find _ a) as [h|]; [reflexivity | exact Hcs].
  - exact Hcs.
Qed.

Section Decoder.

Variable html_Parse : string -> option Node.

#[local] Abbreviation fragmentOf := (fun s => "<a href=" +:+ DQ +:+ s +:+ DQ +:+ ">").

(** X15. The href decoder returns the href of the last anchor (outside
    any other anchor with an href) of the parsed fragment, the value
    itself when the parser fails, finds no such anchor or the last href
    is empty; so it returns the empty string for the empty value only. *)
Theorem href_decoder_takes_last_anchor (s : string) :
  (forall doc found, decodeWalk doc found = List.last (hrefsOf doc) found)
  /\ (html_Parse (fragmentOf s) = None -> htmlDecodeMinimal html_Parse s = s)
  /\ (forall doc,
        html_Parse (fragmentOf s) = Some doc ->
        htmlDecodeMinimal html_Parse s
        = if String.eqb (List.last (hrefsOf doc) "") "" then s
          else List.last (hrefsOf doc) "")
  /\ (htmlDecodeMinimal html_Parse s = "" -> s = "").
Proof.
  split; [exact decodeWalk_last|]. split; [|split].
  - intros Hnone. unfold htmlDecodeMinimal. now rewrite Hnone.
  - intros doc Hdoc. unfold htmlDecodeMinimal. rewrite Hdoc. cbv zeta.
    rewrite decodeWalk_last. now destruct (String.eqb _ "").
  - unfold htmlDecodeMinimal. destruct (html_Parse _) as [doc|]; [|easy].
    cbv zeta. destruct (String.eqb (decodeWalk doc "") "") eqn:E; cbn [negb]; [easy|].
    intros H. apply String.eqb_neq in E. contradiction.
Qed.

End Decoder.

Lemma href_decoder_takes_last_anchor_witness :
  htmlDecodeMinimal recordedParse smuggled = "https://ok".
Proof.
  destruct (href_decoder_takes_last_anchor recordedParse smuggled) as (_ & _ & H & _).
  rewrite (H _ eq_refl). reflexivity.
Defined.

(** ** The policy's lists as sets *)

Section PolicyLists.

Variable html_Parse : string -> option Node.
Variable url_Parse : string -> option URL.

Lemma walk_policy_fields (p q : Policy) (tags schemes : gset string) :
  AllowedAttributes p = AllowedAttributes q ->
  StripDisallowed p = StripDisallowed q ->
  Transformers p = Transformers q ->
  Linkify p = Linkify q ->
  MaxDepth p = MaxDepth q ->
  forall fuel n d buf,
    walk html_Parse url_Parse p tags schemes fuel n d buf
    = walk html_Parse url_Parse q tags schemes fuel n d buf.
Proof.
  intros Hat Hst Htr Hli Hmd.
  induction fuel as [|fuel IH]; intros n d buf; [reflexivity|].
  assert (Hch : forall cs e b,
            forChildren (fun c b => walk html_Parse url_Parse p tags schemes fuel c e b) cs b
            = forChildren (fun c b => walk html_Parse url_Parse q tags schemes fuel c e b) cs b).
  { intros cs e b. apply forChildren_ext. intros c st _. apply IH. }
  simpl. unfold allowed, tooDeep, writeText. rewrite Hat, Hst, Htr, Hli, Hmd.
  destruct (NType n); try reflexivity; try apply Hch.
  destruct (_ && _).
  - destruct (runTransformers _ _) as [m|]; [|reflexivity].
    destruct (isVoidElement _); [reflexivity|]. now rewrite Hch.
  - destruct (StripDisallowed q); [reflexivity|]. now rewrite Hch.
Qed.

(** X16. [SanitizeReader] uses the policy's tag and scheme lists only as
    sets of lower-cased names: two policies whose lists name the same
    tags and the same schemes, letter case, order and repetitions apart,
    and that agree on their other fields, give the same result on every
    input. *)
Theorem policy_lists_are_sets (p q : Policy) (fuel : nat) (r : string) :
  (forall k, (exists x, In x (AllowedTags p) /\ ToLower x = k)
             <-> (exists x, In x (AllowedTags q) /\ ToLower x = k)) ->
  (forall k, (exists x, In x (AllowedSchemes p) /\ ToLower x = k)
             <-> (exists x, In x (AllowedSchemes q) /\ ToLower x = k)) ->
  AllowedAttributes p = AllowedAttributes q ->
  StripDisallowed p = StripDisallowed q ->
  Transformers p = Transformers q ->
  Linkify p = Linkify q ->
  MaxDepth p = MaxDepth q ->
  SanitizeReader html_Parse url_Parse fuel r (Some p)
  = SanitizeReader html_Parse url_Parse fuel r (Some q).
Proof.
  intros Htags Hschemes Hat Hst Htr Hli Hmd.
  assert (Et : sliceToSet (AllowedTags p) = sliceToSet (AllowedTags q)).
  { apply set_eq. intros k. rewrite !elem_of_sliceToSet. apply Htags. }
  assert (Es : sliceToSet (AllowedSchemes p) = sliceToSet (AllowedSchemes q)).
  { apply set_eq. intros k. rewrite !elem_of_sliceToSet. apply Hschemes. }
  unfold SanitizeReader. rewrite Et, Es.
  destruct (html_Parse r) as [doc|]; [|reflexivity].
  destruct (findBody doc) as [body|]; f_equal.
  - apply forChildren_ext. intros c st _. now apply walk_policy_fields.
  - now apply walk_policy_fields.
Qed.

End PolicyLists.

Lemma policy_lists_are_sets_witness :
  sanitize 6 "<div><b>x</b></div>" (Some (mkPolicy ["B"; "div"] ∅ ["HTTPS"] true [] false 0))
  = sanitize 6 "<div><b>x</b></div>"
      (Some (mkPolicy ["DIV"; "b"; "b"] ∅ ["https"] true [] false 0)).
Proof.
  apply (policy_lists_are_sets recordedParse recordedURL
           (mkPolicy ["B"; "div"] ∅ ["HTTPS"] true [] false 0)
           (mkPolicy ["DIV"; "b"; "b"] ∅ ["https"] true [] false 0));
    try reflexivity.
  - intros k. split.
    + intros (x & [<- | [<- | []]] & <-);
        [exists "b" | exists "DIV"]; (split; [simpl; tauto | reflexivity]).
    + intros (x & [<- | [<- | [<- | []]]] & <-);
        [exists "div" | exists "B" | exists "B"]; (split; [simpl; tauto | reflexivity]).
  - intros k. split.
    + intros (x & [<- | []] & <-). exists "https". split; [simpl; tauto | reflexivity].
    + intros (x & [<- | []] & <-). exists "HTTPS". split; [simpl; tauto | reflexivity].
Defined.

(** ** The linkifier *)

Lemma get_dropBytes (k : nat) (s : string) (j : nat) :
  String.get j (dropBytes k s) = String.get (k + j) s.
Proof.
  revert s. induction k as [|k IH]; intros s; [reflexivity|].
  destruct s as [|c r]; simpl; [now destruct j | apply IH].
Qed.

Lemma get_Some_lt (s : string) (i : nat) (c : ascii) :
  String.get i s = Some c -> (i < String.length s)%nat.
Proof.
  revert i. induction s as [|x r IH]; intros i H; simpl in *; [discriminate|].
  destruct i as [|i]; [lia|]. apply IH in H. lia.
Qed.

Lemma lastUrlEnd_spec (s : string) :
  forall pos best i,
    lastUrlEnd s pos best = Some i ->
    best = Some i
    \/ ((pos <= i)%nat /\ i <> O
        /\ (forall j, (j <= i - pos)%nat ->
              exists c, String.get j s = Some c /\ urlByte c = true)
        /\ exists c, String.get (i - pos) s = Some c /\ urlLastByte c = true).
Proof.
  induction s as [|c r IH]; intros pos best i H; simpl in H; [now left|].
  destruct (urlByte c) eqn:Eu; [|now left].
  apply IH in H as [H | (Hle & Hnz & Hall & (x & Hx & Hlast))].
  - destruct (urlLastByte c && negb (Nat.eqb pos 0)) eqn:El; [|now left].
    injection H as <-. apply andb_true_iff in El as [El Hpos].
    apply negb_true_iff, Nat.eqb_neq in Hpos.
    right. replace (pos - pos)%nat with O by lia.
    repeat split; [lia | exact Hpos | | now exists c].
    intros j Hj. replace j with O by lia. now exists c.
  - right. replace (i - pos)%nat with (S (i - S pos)) by lia.
    repeat split; [lia | exact Hnz | | now exists x].
    intros [|j] Hj; [now exists c|]. apply Hall. lia.
Qed.

Lemma matchURL_spec (s : string) (len : nat) :
  matchURL s = Some len ->
  (0 < len)%nat
  /\ hasPrefix "http://" s || hasPrefix "https://" s = true
  /\ (forall i, (i < len)%nat -> exists c, String.get i s = Some c /\ urlByte c = true)
  /\ exists c, String.get (len - 1) s = Some c /\ urlLastByte c = true.
Proof.
  unfold matchURL. intros H.
  destruct (hasPrefix "https://" s) eqn:E8.
  - destruct (lastUrlEnd (dropBytes 8 s) 0 None) as [i|] eqn:El; [|discriminate].
    injection H as <-.
    apply lastUrlEnd_spec in El as [El | (_ & _ & Hall & (x & Hx & Hlast))];
      [discriminate|].
    apply hasPrefix_spec in E8 as [post ->].
    replace (i - 0)%nat with i in Hall, Hx by lia.
    cbn [dropBytes String.append] in Hall, Hx.
    split; [lia|]. split; [reflexivity|]. split.
    + intros j Hj.
      do 8 (destruct j as [|j]; [eexists; split; reflexivity|]).
      cbn [String.get String.append]. apply Hall. lia.
    + exists x. split; [|exact Hlast].
      match goal with |- String.get ?k _ = _ => replace k with (8 + i)%nat by lia end.
      exact Hx.
  - destruct (hasPrefix "http://" s) eqn:E7; [|discriminate].
    destruct (lastUrlEnd (dropBytes 7 s) 0 None) as [i|] eqn:El; [|discriminate].
    injection H as <-.
    apply lastUrlEnd_spec in El as [El | (_ & _ & Hall & (x & Hx & Hlast))];
      [discriminate|].
    apply hasPrefix_spec in E7 as [post ->].
    replace (i - 0)%nat with i in Hall, Hx by lia.
    cbn [dropBytes String.append] in Hall, Hx.
    split; [lia|]. split; [reflexivity|]. split.
    + intros j Hj.
      do 7 (destruct j as [|j]; [eexists; split; reflexivity|]).
      cbn [String.get String.append]. apply Hall. lia.
    + exists x. split; [|exact Hlast].
      match goal with |- String.get ?k _ = _ => replace k with (7 + i)%nat by lia end.
      exact Hx.
Qed.

Lemma ordered_le (l l' : nat) (ms : list (nat * nat)) :
  (l' <= l)%nat -> ordered l ms = true -> ordered l' ms = true.
Proof.
  destruct ms as [|[a b] rest]; [easy|]. cbn [ordered]. intros Hle H.
  apply andb_true_iff in H as [H Hrest]. apply andb_true_iff in H as [Ha Hab].
  apply Nat.leb_le in Ha. rewrite Hrest, Hab.
  replace (l' <=? a)%nat with true by (symmetry; apply Nat.leb_le; lia). reflexivity.
Qed.

Lemma findAllFrom_spec (s : string) :
  forall pos skip,
    ordered (pos + skip) (findAllFrom s pos skip) = true
    /\ forall a b, In (a, b) (findAllFrom s pos skip) ->
         (pos + skip <= a)%nat /\ (a < b)%nat
         /\ matchURL (dropBytes (a - pos) s) = Some (b - a)%nat.
Proof.
  induction s as [|c r IH]; intros pos skip; [split; [reflexivity | intros a b []]|].
  cbn [findAllFrom]. destruct skip as [|k].
  - destruct (matchURL (String c r)) as [len|] eqn:Em.
    + destruct (matchURL_spec _ _ Em) as (Hlen & _).
      destruct (IH (S pos) (len - 1)%nat) as (Hord & Hin).
      replace (S pos + (len - 1))%nat with (pos + len)%nat in Hord, Hin by lia.
      split.
      * cbn [ordered]. rewrite Hord.
        replace (pos + 0 <=? pos)%nat with true by (symmetry; apply Nat.leb_le; lia).
        replace (pos <? pos + len)%nat with true by (symmetry; apply Nat.ltb_lt; lia).
        reflexivity.
      * intros a b [Heq | Hab].
        -- injection Heq as <- <-. replace (pos - pos)%nat with O by lia.
           replace (pos + len - pos)%nat with len by lia.
           repeat split; [lia | lia | exact Em].
        -- destruct (Hin a b Hab) as (H1 & H2 & H3).
           replace (a - pos)%nat with (S (a - S pos)) by lia.
           repeat split; [lia | exact H2 | exact H3].
    + destruct (IH (S pos) O) as (Hord & Hin). split.
      * apply (ordered_le (S pos + 0)); [lia | exact Hord].
      * intros a b Hab. destruct (Hin a b Hab) as (H1 & H2 & H3).
        replace (a - pos)%nat with (S (a - S pos)) by lia.
        repeat split; [lia | exact H2 | exact H3].
  - destruct (IH (S pos) k) as (Hord & Hin). split.
    + apply (ordered_le (S pos + k)); [lia | exact Hord].
    + intros a b Hab. destruct (Hin a b Hab) as (H1 & H2 & H3).
      replace (a - pos)%nat with (S (a - S pos)) by lia.
      repeat split; [lia | exact H2 | exact H3].
Qed.



Lemma findAllFrom_no_scheme (s : string) (pos : nat) :
  Contains s "http://" = false -> Contains s "https://" = false ->
  findAllFrom s pos 0 = [].
Proof.
  revert pos. induction s as [|c r IH]; intros pos H7 H8; [reflexivity|].
  cbn [Contains] in H7, H8.
  apply orb_false_iff in H7 as [P7 C7]. apply orb_false_iff in H8 as [P8 C8].
  cbn [findAllFrom]. unfold matchURL. rewrite P7, P8. now apply IH.
Qed.

(** X18. A text in which neither [http://] nor [https://] occurs is
    written the same with and without linkify: escaped, with no anchor. *)
Theorem linkify_leaves_plain_text (p : Policy) (w text : string) :
  Contains text "http://" = false ->
  Contains text "https://" = false ->
  FindAllStringIndex text = []
  /\ writeLinkedText w text = w +:+ EscapeString text
  /\ writeText p w text = w +:+ EscapeString text.
Proof.
  intros H7 H8.
  assert (Hnone : FindAllStringIndex text = []) by now apply findAllFrom_no_scheme.
  assert (Hw : writeLinkedText w text = w +:+ EscapeString text).
  { unfold writeLinkedText. rewrite Hnone. reflexivity. }
  repeat split; [exact Hnone | exact Hw |].
  unfold writeText. now destruct (Linkify p).
Qed.

Lemma linkify_leaves_plain_text_witness :
  writeText (withLinkify DefaultPolicy true) "" "a < b, see http:/x"
  = "a &lt; b, see http:/x".
Proof.
  apply (linkify_leaves_plain_text (withLinkify DefaultPolicy true) "" "a < b, see http:/x");
    reflexivity.
Defined.

(** ** The shape of the output *)

Section Shape.

Variable html_Parse : string -> option Node.
Variable url_Parse : string -> option URL.
Variable p : Policy.
Variable allowedTags : gset string.
Variable allowedSchemes : gset string.

#[local] Abbreviation trace' := (trace html_Parse url_Parse p allowedTags allowedSchemes).

(** A property of the events each kind of node can write holds of every
    event of a trace. *)
Lemma trace_shape (P : Event -> Prop) :
  (forall t, P (EvText (writeText p "" t))) ->
  (forall n d m,
      NType n = ElementNode ->
      allowed p allowedTags (ToLower (Data n)) d = true ->
      runTransformers (Transformers p)
        (withAttr n (filterAttrs html_Parse url_Parse (Attr n) (ToLower (Data n))
                       (AllowedAttributes p) allowedSchemes)) = Some m ->
      P (EvOpen (ToLower (Data n)) (Attr m) (isVoidElement (ToLower (Data n))))
      /\ (isVoidElement (ToLower (Data n)) = false -> P (EvClose (ToLower (Data n))))) ->
  (StripDisallowed p = false -> forall lit, P (EvEscaped lit)) ->
  forall fuel n d evs, trace' fuel n d = Some evs -> Forall P evs.
Proof.
  intros Ptext Plive Pesc.
  induction fuel as [|fuel IH]; intros n d evs Htr; [discriminate|].
  assert (Hch : forall m d' es,
            traceChildren (fun c => trace' fuel c d') (Children m) = Some es ->
            Forall P es).
  { intros m d' es Hes. eapply traceChildren_Forall; [|exact Hes].
    intros c e _ He. now apply (IH c d'). }
  destruct (NType n) eqn:Hty.
  - simpl in Htr; rewrite Hty in Htr. now apply (Hch n d).
  - simpl in Htr; rewrite Hty in Htr. injection Htr as <-. repeat constructor.
    apply Ptext.
  - simpl in Htr; rewrite Hty in Htr. now apply (Hch n d).
  - destruct (allowed p allowedTags (ToLower (Data n)) d) eqn:Hal.
    + rewrite trace_allowed in Htr by assumption.
      destruct (runTransformers _ _) as [m|] eqn:Hrun; [|injection Htr as <-; constructor].
      destruct (Plive n d m Hty Hal Hrun) as [Popen Pclose].
      cbv zeta in Htr. destruct (isVoidElement (ToLower (Data n))) eqn:Hvoid.
      * injection Htr as <-. repeat constructor. exact Popen.
      * destruct (traceChildren _ _) as [es|] eqn:Hes; [|discriminate].
        injection Htr as <-. constructor; [exact Popen|].
        apply Forall_app. split; [now apply (Hch m (d + 1))|].
        repeat constructor. now apply Pclose.
    + rewrite trace_disallowed in Htr by assumption.
      destruct (StripDisallowed p) eqn:Hstrip; [injection Htr as <-; constructor|].
      destruct (traceChildren _ _) as [es|] eqn:Hes; [|discriminate].
      injection Htr as <-. constructor; [now apply Pesc|].
      apply Forall_app. split; [now apply (Hch n (d + 1))|].
      destruct (negb _); repeat constructor. now apply Pesc.
  - simpl in Htr; rewrite Hty in Htr. injection Htr as <-. constructor.
  - simpl in Htr; rewrite Hty in Htr. injection Htr as <-. constructor.
  - simpl in Htr; rewrite Hty in Htr. now apply (Hch n d).
Qed.


End Shape.


Lemma sanitizeTrace_Forall (html_Parse : string -> option Node)
    (url_Parse : string -> option URL) (P : Event -> Prop) (q : Policy)
    (fuel : nat) (r : string) (evs : list Event) :
  (forall n d es,
      trace html_Parse url_Parse q (sliceToSet (AllowedTags q))
        (sliceToSet (AllowedSchemes q)) fuel n d = Some es -> Forall P es) ->
  sanitizeTrace html_Parse url_Parse fuel r (Some q) = Some evs -> Forall P evs.
Proof.
  intros Hall. unfold sanitizeTrace.
  destruct (html_Parse r) as [doc|]; [|discriminate].
  destruct (findBody doc) as [body|].
  - apply traceChildren_Forall. intros c e _. apply Hall.
  - apply Hall.
Qed.

Lemma in_lower_list (l : list string) (k : string) :
  forallb (fun x => String.eqb (ToLower x) x) l = true ->
  inSet (sliceToSet l) k = true -> In k l.
Proof.
  intros Hlow Hin. unfold inSet in Hin. apply bool_decide_eq_true in Hin.
  apply elem_of_sliceToSet in Hin as (x & Hx & <-).
  rewrite forallb_forall in Hlow. specialize (Hlow x Hx).
  apply String.eqb_eq in Hlow. now rewrite Hlow.
Qed.

Lemma default_attribute_names (key tag : string) :
  attrAllowed key tag (AllowedAttributes DefaultPolicy) = true ->
  In key defaultAttributeNames.
Proof.
  intros H. apply attrAllowed_spec in H.
  assert (Hl : forall k l, AllowedAttributes DefaultPolicy !! k = Some l ->
                 In key l -> In key defaultAttributeNames).
  { intros k l Hk Hin. cbn [AllowedAttributes DefaultPolicy] in Hk.
    apply elem_of_list_to_map_2, list_elem_of_In in Hk. simpl in Hk.
    repeat (destruct Hk as [Hk | Hk];
            [injection Hk as <- <-; simpl in Hin |- *; tauto|]).
    destruct Hk. }
  destruct H as [(l & Hk & Hin) | (l & Hk & Hin)]; exact (Hl _ l Hk Hin).
Qed.

(** X20. The two presets, on every input.  Under [StrictPolicy] a call
    writes escaped text and the open and close tags of the preset's nine
    tags, always without attributes, and nothing else.  Under
    [DefaultPolicy], also when the policy is [nil], every live tag is one
    of the preset's tags and every attribute on it has one of the names
    the preset lists; text and the escaped tags hold no angle bracket and
    no quote. *)
Theorem preset_policies_output (html_Parse : string -> option Node)
    (url_Parse : string -> option URL) (fuel : nat) (r : string) (evs : list Event) :
  (sanitizeTrace html_Parse url_Parse fuel r (Some StrictPolicy) = Some evs ->
   Forall strictEvent evs)
  /\ (sanitizeTrace html_Parse url_Parse fuel r None = Some evs ->
      Forall defaultEvent evs)
  /\ (sanitizeTrace html_Parse url_Parse fuel r (Some DefaultPolicy) = Some evs ->
      Forall defaultEvent evs).
Proof.
  assert (Hdefault : sanitizeTrace html_Parse url_Parse fuel r (Some DefaultPolicy)
                     = Some evs -> Forall defaultEvent evs).
  { apply sanitizeTrace_Forall. intros n d es. apply trace_shape.
    - intros t. cbn [defaultEvent]. unfold writeText. cbn [Linkify DefaultPolicy].
      apply EscapeString_noMarkup.
    - intros m d' m' _ Hal Hrun. unfold allowed in Hal.
      apply andb_true_iff in Hal as [Hin _].
      apply in_lower_list in Hin; [|reflexivity].
      cbn [Transformers DefaultPolicy runTransformers] in Hrun. injection Hrun as <-.
      cbn [defaultEvent Attr withAttr]. split; [split; [exact Hin|] | intros _; exact Hin].
      intros a Ha. apply filterAttrs_In in Ha as (_ & Hal & _).
      now apply default_attribute_names in Hal.
    - intros _ lit. cbn [defaultEvent]. apply EscapeString_noMarkup. }
  split; [|split; [exact Hdefault | exact Hdefault]].
  apply sanitizeTrace_Forall. intros n d es. apply trace_shape.
  - intros t. cbn [strictEvent]. unfold writeText. cbn [Linkify StrictPolicy].
    apply EscapeString_noMarkup.
  - intros m d' m' _ Hal Hrun. unfold allowed in Hal.
    apply andb_true_iff in Hal as [Hin _].
    apply in_lower_list in Hin; [|reflexivity].
    cbn [Transformers StrictPolicy runTransformers] in Hrun. injection Hrun as <-.
    cbn [strictEvent Attr withAttr]. split; [split; [exact Hin|] | intros _; exact Hin].
    destruct (filterAttrs _ _ _ _ _ _) as [|a rest] eqn:Ef; [reflexivity|].
    assert (Ha : In a (a :: rest)) by now left.
    rewrite <- Ef in Ha. apply filterAttrs_In in Ha as (_ & Hal & _).
    apply attrAllowed_spec in Hal. cbn [AllowedAttributes StrictPolicy] in Hal.
    destruct Hal as [(l & Hl & _) | (l & Hl & _)]; rewrite lookup_empty in Hl;
      discriminate.
  - discriminate.
Qed.

Lemma preset_policies_output_witness :
  Forall strictEvent [EvOpen "b" [] false; EvText "x"; EvClose "b"]
  /\ Forall defaultEvent
       [EvOpen "div" [] false; EvOpen "b" [] false; EvText "x"; EvClose "b";
        EvClose "div"].
Proof.
  split.
  - apply (proj1 (preset_policies_output recordedParse recordedURL 6 "<b>x</b>" _)).
    reflexivity.
  - apply (proj1 (proj2 (preset_policies_output recordedParse recordedURL 6
                           "<div><b>x</b></div>" _))).
    reflexivity.
Defined.

(** ** The attribute helpers as transformers *)

Lemma setAttrList_has_key (attrs : list Attribute) (k v : string) :
  existsb (fun a => String.eqb (Key a) k) (setAttrList attrs k v) = true.
Proof.
  induction attrs as [|a rest IH]; simpl.
  - now rewrite String.eqb_refl.
  - destruct (String.eqb (Key a) k) eqn:Ea; simpl; [now rewrite Ea|].
    now rewrite Ea, IH.
Qed.

Section HelperTransformers.

Variable html_Parse : string -> option Node.
Variable url_Parse : string -> option URL.
Variable p : Policy.
Variable allowedTags : gset string.
Variable allowedSchemes : gset string.

#[local] Abbreviation trace' := (trace html_Parse url_Parse p allowedTags allowedSchemes).


End HelperTransformers.

